(** * veyrm maintenance scripts: [fix_boost_json.py] and [fix_config.py]

    Both scripts are sequences of [re.sub] calls over the text of C++
    files.  This development embeds

    - the fragment of Python's backtracking regular-expression engine that
      the eight patterns of the two scripts use (literals, the classes
      [\w], [\s], [\d] and [[^c]], greedy [*] and [+] over a class, the
      anchor [\b], capturing groups and backreferences),
    - [re.sub] itself (left-to-right scan, non-overlapping matches,
      replacement templates with group references),
    - the two scripts, with the file system and the console as explicit
      state,

    and states the properties of the scripts over that embedding. *)

From Stdlib Require Import List NArith Ascii String Bool Arith Lia DecimalString DecimalNat.
From stdpp Require Import gmap.
Import ListNotations.

Local Open Scope N_scope.
Local Open Scope list_scope.

(** ** Text

    A Python [str] is a sequence of Unicode code points.  A code point is
    an [N]; a text is a list of them. *)

Abbreviation char := N (only parsing).
Abbreviation text := (list N) (only parsing).

(** [str "abc"] is the text of an ASCII literal. *)
Definition str (s : string) : text :=
  List.map N_of_ascii (list_ascii_of_string s).

(** [ch "a"] is the code point of an ASCII character. *)
Definition ch (a : ascii) : char := N_of_ascii a.
Arguments ch a%_char.

(** The double quote, written by its code point. *)
Definition dq : char := 34.
(** The line feed, written [\n] in the patterns and templates. *)
Definition nl : char := 10.

(** ** Character classes

    With a [str] pattern and no flags, [\w], [\s] and [\d] are the Unicode
    classes of the interpreter: [\w] is [Py_UNICODE_ISALNUM(ch) || ch == '_'],
    [\s] is [Py_UNICODE_ISSPACE] and [\d] is [Py_UNICODE_ISDECIMAL].  On the
    ASCII range these are written out below.  Beyond it they are rows of the
    interpreter's Unicode database, which is no part of this repository: the
    database is a parameter of the development. *)

Record unicode_db : Type := UnicodeDb {
  uni_isalnum : char -> bool;
  uni_isspace : char -> bool;
  uni_isdecimal : char -> bool
}.

(** A database without entries: no code point beyond ASCII is in any
    class.  The examples, whose texts are ASCII, run with it. *)
Definition no_entries_db : unicode_db :=
  UnicodeDb (fun _ => false) (fun _ => false) (fun _ => false).

(** A glob for the examples: the paths of [found] that exist, for the
    first of the three patterns, and nothing for the others. *)
Definition glob_of (found : list text) (fs : gmap (list N) (list N)) (pat : text)
    : list text :=
  if bool_decide (pat = str "src/**/*.cpp")
  then List.filter (fun p => bool_decide (is_Some (fs !! p))) found
  else [].

(** For the examples: every file can be written, and no two paths name
    one file. *)
Definition every_path_writable : text -> bool := fun _ => true.
Definition no_links : text -> text -> bool := fun p q => bool_decide (p = q).

(** For the examples: the paths [a] and [b] name one file, and no other
    two paths do. *)
Definition linked (a b : text) : text -> text -> bool :=
  fun p q =>
    bool_decide (p = q) || bool_decide (p = a) && bool_decide (q = b)
    || bool_decide (p = b) && bool_decide (q = a).

(** Membership in a text that is a literal, decided by evaluation. *)
Ltac no_paren_in_literal :=
  let x := fresh in let Hx := fresh in
  intros x Hx; vm_compute in Hx;
  repeat match type of Hx with
         | _ \/ _ => destruct Hx as [Hx|Hx]; [subst x; discriminate|]
         end;
  first [exact (False_ind _ Hx) | subst x; discriminate].

Ltac not_in_literal :=
  let Hx := fresh in
  intros Hx; vm_compute in Hx;
  repeat match type of Hx with
         | _ \/ _ => destruct Hx as [Hx|Hx]; [discriminate Hx|]
         end;
  first [exact (False_ind _ Hx) | discriminate Hx].

Section Scripts.

Variable db : unicode_db.

Definition between (lo hi c : char) : bool := (lo <=? c) && (c <=? hi).

Definition is_digit (c : char) : bool :=
  if c <? 128 then between 48 57 c else uni_isdecimal db c.

Definition is_word (c : char) : bool :=
  if c <? 128
  then between 48 57 c || between 65 90 c || between 97 122 c || (c =? 95)
  else uni_isalnum db c.

Definition is_space (c : char) : bool :=
  if c <? 128
  then between 9 13 c || between 28 31 c || (c =? 32)
  else uni_isspace db c.

Inductive cclass : Type :=
| Word                 (* \w *)
| Space                (* \s *)
| Digit                (* \d *)
| NotChar (c : char).  (* [^c] *)

Definition in_class (k : cclass) (c : char) : bool :=
  match k with
  | Word => is_word c
  | Space => is_space c
  | Digit => is_digit c
  | NotChar x => negb (c =? x)
  end.

(** ** Patterns *)

Inductive regex : Type :=
| Eps
| Lit (c : char)              (* a literal character, escaped or not *)
| Star (k : cclass)           (* k*  greedy *)
| Plus (k : cclass)           (* k+  greedy *)
| WordB                       (* \b *)
| Seq (a b : regex)
| Group (n : nat) (a : regex) (* the n-th capturing group *)
| Backref (n : nat).          (* \n *)

(** A literal run, and the concatenation of a list of pieces. *)
Definition lits (s : text) : regex := fold_right (fun c r => Seq (Lit c) r) Eps s.
Definition cat (rs : list regex) : regex := fold_right Seq Eps rs.

(** ** The matcher

    A position in the subject is a zipper: the text before it, reversed,
    and the text after it.  The state of a match attempt adds the groups
    captured so far, newest first. *)

Record mstate : Type := MState {
  before : text;
  after : text;
  groups : list (nat * text)
}.

Fixpoint group_lookup (n : nat) (g : list (nat * text)) : option text :=
  match g with
  | [] => None
  | (i, u) :: g' => if Nat.eqb i n then Some u else group_lookup n g'
  end.

(** [\b]: the characters on the two sides of the position differ in
    being word characters; outside the subject counts as a non-word. *)
Definition at_boundary (st : mstate) : bool :=
  let thatp := match before st with c :: _ => is_word c | [] => false end in
  let thisp := match after st with c :: _ => is_word c | [] => false end in
  negb (Bool.eqb thisp thatp).

(** [text_prefix u s] is [Some rest] when [s = u ++ rest]. *)
Fixpoint text_prefix (u s : text) : option text :=
  match u with
  | [] => Some s
  | x :: u' =>
      match s with
      | y :: s' => if x =? y then text_prefix u' s' else None
      | [] => None
      end
  end.

(** The matcher is written in continuation-passing style: [k] is the rest
    of the pattern, and a [None] from it makes the matcher try its next
    alternative, the way the engine backtracks.  A greedy repetition takes
    as many characters as it can and gives them back one at a time. *)
Fixpoint star (p : char -> bool) (bef aft : text) (g : list (nat * text))
    (k : mstate -> option mstate) {struct aft} : option mstate :=
  match aft with
  | c :: aft' =>
      if p c then
        match star p (c :: bef) aft' g k with
        | Some r => Some r
        | None => k (MState bef aft g)
        end
      else k (MState bef aft g)
  | [] => k (MState bef aft g)
  end.

Definition plus (p : char -> bool) (bef aft : text) (g : list (nat * text))
    (k : mstate -> option mstate) : option mstate :=
  match aft with
  | c :: aft' => if p c then star p (c :: bef) aft' g k else None
  | [] => None
  end.

(** The text a group spans, from where it opened to where it closed. *)
Definition span (st st' : mstate) : text :=
  firstn (length (after st) - length (after st')) (after st).

Fixpoint rmatch (r : regex) (st : mstate) (k : mstate -> option mstate)
    : option mstate :=
  match r with
  | Eps => k st
  | Lit c =>
      match after st with
      | x :: aft' =>
          if x =? c then k (MState (x :: before st) aft' (groups st)) else None
      | [] => None
      end
  | Star cl => star (in_class cl) (before st) (after st) (groups st) k
  | Plus cl => plus (in_class cl) (before st) (after st) (groups st) k
  | WordB => if at_boundary st then k st else None
  | Seq a b => rmatch a st (fun st' => rmatch b st' k)
  | Group n a =>
      rmatch a st
        (fun st' => k (MState (before st') (after st')
                              ((n, span st st') :: groups st')))
  | Backref n =>
      match group_lookup n (groups st) with
      | Some u =>
          match text_prefix u (after st) with
          | Some aft' => k (MState (rev u ++ before st) aft' (groups st))
          | None => None
          end
      | None => None
      end
  end.

(** One match attempt at a position.  [must_advance] is set by [re.sub]
    after an empty match: the attempt then refuses an empty match. *)
Definition match_at (r : regex) (bef aft : text) (must_advance : bool)
    : option mstate :=
  rmatch r (MState bef aft [])
    (fun st =>
       if must_advance && (length (after st) =? length aft)%nat
       then None else Some st).

(** [re.search]: the first position, from the left, where the pattern
    matches. *)
Fixpoint search (r : regex) (bef aft : text) : option mstate :=
  match match_at r bef aft false with
  | Some st => Some st
  | None =>
      match aft with
      | c :: aft' => search r (c :: bef) aft'
      | [] => None
      end
  end.

(** ** Replacement templates and [re.sub] *)

Inductive titem : Type :=
| TLit (c : char)
| TGroup (n : nat).   (* \n; a group that took no part expands to nothing *)

Definition tlits (s : text) : list titem := List.map TLit s.

Definition expand (t : list titem) (g : list (nat * text)) : text :=
  flat_map (fun i =>
              match i with
              | TLit c => [c]
              | TGroup n => match group_lookup n g with Some u => u | None => [] end
              end) t.

Definition match_len (aft : text) (st : mstate) : nat :=
  (length aft - length (after st))%nat.

(** The scan of [re.sub] with [count = 0].  [skip] is the number of
    characters of the last match still to step over.  At a position the
    pattern is tried; a match is replaced by the expanded template and the
    scan resumes at its end; otherwise the character is copied.  After an
    empty match the position is tried once more for a non-empty one. *)
Fixpoint sub_loop (r : regex) (t : list titem) (bef aft : text) (skip : nat)
    {struct aft} : text :=
  match aft with
  | [] =>
      match skip with
      | O =>
          match match_at r bef [] false with
          | Some st => expand t (groups st)
          | None => []
          end
      | S _ => []
      end
  | c :: aft' =>
      match skip with
      | S n => sub_loop r t (c :: bef) aft' n
      | O =>
          match match_at r bef aft false with
          | Some st =>
              match match_len aft st with
              | S n => expand t (groups st) ++ sub_loop r t (c :: bef) aft' n
              | O =>
                  expand t (groups st) ++
                  match match_at r bef aft true with
                  | Some st2 =>
                      match match_len aft st2 with
                      | S n => expand t (groups st2) ++ sub_loop r t (c :: bef) aft' n
                      | O => c :: sub_loop r t (c :: bef) aft' O
                      end
                  | None => c :: sub_loop r t (c :: bef) aft' O
                  end
              end
          | None => c :: sub_loop r t (c :: bef) aft' O
          end
      end
  end.

Definition re_sub (r : regex) (t : list titem) (s : text) : text :=
  sub_loop r t [] s O.

(** ** Script A: [fix_boost_json.py] *)

(** The patterns are quoted piece by piece, the pieces set apart by blanks,
    and with Q for the double quote.

    Rule 1, line 16:  \b json \s+ ( \w+ ) ; \s* \n ( \s* ) \1 \[ Q  *)
Definition rule1_pattern : regex :=
  cat [WordB; lits (str "json"); Plus Space; Group 1 (Plus Word); Lit (ch ";");
       Star Space; Lit nl; Group 2 (Star Space); Backref 1; Lit (ch "["); Lit dq].
Definition rule1_template : list titem :=
  tlits (str "boost::json::object ") ++
  [TGroup 1; TLit (ch ";"); TLit nl; TGroup 2; TGroup 1; TLit (ch "["); TLit dq].

(** Rule 2, lines 19 and 20. *)
Definition array_pattern : regex := cat [WordB; lits (str "json::array()")].
Definition value_array_pattern : regex :=
  cat [WordB; lits (str "boost::json::value::array()")].
Definition array_template : list titem := tlits (str "boost::json::array()").

(** Rule 3, lines 23 and 24. *)
Definition object_pattern : regex := cat [WordB; lits (str "json::object()")].
Definition value_object_pattern : regex :=
  cat [WordB; lits (str "boost::json::value::object()")].
Definition object_template : list titem := tlits (str "boost::json::object()").

(** Rule 4, line 27:  ( \w+ ) \.dump\( ( \d+ ) \)  *)
Definition dump_pattern : regex :=
  cat [Group 1 (Plus Word); lits (str ".dump("); Group 2 (Plus Digit); Lit (ch ")")].
Definition dump_template : list titem :=
  tlits (str "boost::json::serialize(") ++ [TGroup 1; TLit (ch ")")].

(** Rule 5, line 31:  ( \w+ ) \.contains\( Q ( [^Q]+ ) Q \)  *)
Definition contains_pattern : regex :=
  cat [Group 1 (Plus Word); lits (str ".contains("); Lit dq;
       Group 2 (Plus (NotChar dq)); Lit dq; Lit (ch ")")].
Definition contains_template : list titem :=
  [TGroup 1] ++ tlits (str ".is_object() && ") ++ [TGroup 1] ++
  tlits (str ".as_object().contains(") ++ [TLit dq; TGroup 2; TLit dq; TLit (ch ")")].

Definition rule1 : text -> text := re_sub rule1_pattern rule1_template.
Definition rule2a : text -> text := re_sub array_pattern array_template.
Definition rule2b : text -> text := re_sub value_array_pattern array_template.
Definition rule3a : text -> text := re_sub object_pattern object_template.
Definition rule3b : text -> text := re_sub value_object_pattern object_template.
Definition rule4 : text -> text := re_sub dump_pattern dump_template.
Definition rule5 : text -> text := re_sub contains_pattern contains_template.

(** The patterns of Script A, in the order the script applies them. *)
Definition scriptA_patterns : list regex :=
  [rule1_pattern; array_pattern; value_array_pattern; object_pattern;
   value_object_pattern; dump_pattern; contains_pattern].

(** The body of [fix_boost_json_file] between the read and the comparison:
    [content] is reassigned seven times. *)
Definition fix_content (content : text) : text :=
  let content := rule1 content in
  let content := rule2a content in
  let content := rule2b content in
  let content := rule3a content in
  let content := rule3b content in
  let content := rule4 content in
  let content := rule5 content in
  content.

(** ** The world of a script

    A run sees the files and leaves a trace of its writes and of the lines
    it prints, oldest first.  [files] gives, for each path that can be
    read, the text that [read] returns for it: decoding and the translation
    of line ends are the interpreter's and stay outside.  Two paths can
    name one file (a link), and a file can refuse to be opened for
    writing: both are the operating system's and are parameters here.  No
    script changes them.  An exception (a path that cannot be read, a file
    that cannot be written) ends the run: neither script catches any. *)

Inductive event : Type :=
| EvWrite (path content : text)
| EvPrint (line : text).

Record world : Type := World {
  files : gmap (list N) (list N);
  trace : list event
}.

Definition io (A : Type) : Type := world -> option (A * world).

Definition ret {A} (a : A) : io A := fun w => Some (a, w).
Definition bind {A B} (c : io A) (k : A -> io B) : io B :=
  fun w => match c w with
           | Some (a, w') => k a w'
           | None => None
           end.

Notation "x <- c ;; k" := (bind c (fun x => k))
  (at level 100, c at next level, right associativity).

(** [open(path, 'r')] and [f.read()]. *)
Definition read_file (path : text) : io text :=
  fun w => match files w !! path with
           | Some content => Some (content, w)
           | None => None
           end.

(** [can_write path]: [open(path, 'w')] succeeds. *)
Variable can_write : text -> bool.
(** [same_file p q]: the paths [p] and [q] name one file. *)
Variable same_file : text -> text -> bool.

(** What the paths read after [content] was written through [path]: the
    path itself and every path that names the same file read [content]. *)
Definition write_to (path content : text) (fs : gmap (list N) (list N))
    : gmap (list N) (list N) :=
  <[path := content]>
    (map_imap (fun q old => Some (if same_file path q then content else old)) fs).

(** [open(path, 'w')] and [f.write(content)]. *)
Definition write_file (path content : text) : io unit :=
  fun w =>
    if can_write path
    then Some (tt, World (write_to path content (files w))
                         (trace w ++ [EvWrite path content]))
    else None.

Definition print (line : text) : io unit :=
  fun w => Some (tt, World (files w) (trace w ++ [EvPrint line])).

Definition text_eqb (a b : text) : bool := bool_decide (a = b).

Definition fix_boost_json_file (filepath : text) : io bool :=
  content <- read_file filepath ;;
  let original_content := content in
  let content := fix_content content in
  if negb (text_eqb content original_content) then
    _ <- write_file filepath content ;;
    _ <- print (str "Fixed: " ++ filepath) ;;
    ret true
  else ret false.

(** [glob.glob(pattern, recursive=True)] is the interpreter's; it reads the
    directory tree and is a parameter here. *)
Variable glob : gmap (list N) (list N) -> text -> list text.

Definition glob_patterns : list text :=
  [str "src/**/*.cpp"; str "include/**/*.h"; str "tests/**/*.cpp"].

Definition find_cpp_files : io (list text) :=
  fun w => Some (flat_map (glob (files w)) glob_patterns, w).

(** The loop of [main], with its counter. *)
Fixpoint fix_all (cpp_files : list text) (fixed_count : nat) : io nat :=
  match cpp_files with
  | [] => ret fixed_count
  | filepath :: rest =>
      fixed <- fix_boost_json_file filepath ;;
      fix_all rest (if fixed then S fixed_count else fixed_count)
  end.

(** The counter as the f-string formats it: its decimal digits. *)
Definition decimal (n : nat) : text := str (NilZero.string_of_uint (Nat.to_uint n)).

Definition main : io unit :=
  cpp_files <- find_cpp_files ;;
  fixed_count <- fix_all cpp_files 0%nat ;;
  print (str "Fixed " ++ decimal fixed_count ++ str " files").

(** ** Script B: [fix_config.py] *)

(** Line 13:
    ( \w+ ) \.is_object\(\) &&  \1 \.as_object\(\)\.contains\( Q ( [^Q]+ ) Q \)
    with one blank on each side of the two ampersands. *)
Definition config_pattern : regex :=
  cat [Group 1 (Plus Word); lits (str ".is_object() && "); Backref 1;
       lits (str ".as_object().contains("); Lit dq; Group 2 (Plus (NotChar dq));
       Lit dq; Lit (ch ")")].
Definition config_template : list titem :=
  [TGroup 1] ++ tlits (str ".contains(") ++ [TLit dq; TGroup 2; TLit dq; TLit (ch ")")].

Definition config_sub : text -> text := re_sub config_pattern config_template.

Definition config_path : text := str "src/config.cpp".

Definition fix_config : io unit :=
  content <- read_file config_path ;;
  let content := config_sub content in
  _ <- write_file config_path content ;;
  print (str "Fixed config.cpp").

(** ** Vocabulary of the statements *)

(** An identifier is a non-empty run of word characters.  This covers
    the identifiers of C++ and is what [\w+] spans. *)
Definition identifier (v : text) : Prop :=
  v <> [] /\ forallb is_word v = true.

(** A decimal integer literal is a non-empty run of decimal digits. *)
Definition decimal_literal (n : text) : Prop :=
  n <> [] /\ forallb is_digit n = true.

(** [lacks c s]: the character [c] does not occur in [s]. *)
Definition lacks (c : char) (s : text) : Prop := ~ In c s.

(** The texts the statements speak of, for a variable [v], a key [k] and
    an argument [a]. *)
Definition contains_call (v k : text) : text :=
  v ++ str ".contains(" ++ [dq] ++ k ++ [dq] ++ str ")".
Definition guarded_call (v w k : text) : text :=
  v ++ str ".is_object() && " ++ w ++ str ".as_object().contains(" ++
  [dq] ++ k ++ [dq] ++ str ")".
Definition dump_call (v a : text) : text :=
  v ++ str ".dump(" ++ a ++ str ")".
Definition serialize_call (v : text) : text :=
  str "boost::json::serialize(" ++ v ++ str ")".

(** The declaration of the example and what rule 1 makes of it. *)
Definition declaration_example : text :=
  str "json foo;" ++ [nl] ++ str "    foo[" ++ [dq] ++ str "bar" ++ [dq] ++ str "] = 1;".
Definition declaration_example_fixed : text :=
  str "boost::json::object foo;" ++ [nl] ++
  str "    foo[" ++ [dq] ++ str "bar" ++ [dq] ++ str "] = 1;".

(** The line printed for a fixed file, and the last line of Script A. *)
Definition fixed_line (filepath : text) : text := str "Fixed: " ++ filepath.
Definition count_line (n : nat) : text := str "Fixed " ++ decimal n ++ str " files".

(** A text stops a class when it is empty or starts outside the class. *)
Definition stops (p : char -> bool) (s : text) : Prop :=
  match s with
  | [] => True
  | c :: _ => p c = false
  end.

(** What a run printed and which paths it wrote, in order. *)
Definition prints (evs : list event) : list text :=
  flat_map (fun e => match e with EvPrint l => [l] | EvWrite _ _ => [] end) evs.
Definition writes (evs : list event) : list text :=
  flat_map (fun e => match e with EvWrite p _ => [p] | EvPrint _ => [] end) evs.

(** The successive return values of [fix_boost_json_file] over a list of
    files, each call running in the world the previous one left. *)
Fixpoint fix_results (cpp_files : list text) : io (list bool) :=
  match cpp_files with
  | [] => ret []
  | filepath :: rest =>
      fixed <- fix_boost_json_file filepath ;;
      more <- fix_results rest ;;
      ret (fixed :: more)
  end.

(** The files of a list for which the call returned [True]. *)
Fixpoint fixed_files (cpp_files : list text) (results : list bool) : list text :=
  match cpp_files, results with
  | f :: fs, true :: bs => f :: fixed_files fs bs
  | _ :: fs, false :: bs => fixed_files fs bs
  | _, _ => []
  end.

(** [occurs l s]: the text [l] stands somewhere in [s]. *)
Definition occurs (l s : text) : Prop := exists p q, s = p ++ l ++ q.

(** A text none of the rules of Script A can touch: each of its seven
    patterns holds one of these three literals. *)
Definition trigger_free (s : text) : Prop :=
  ~ occurs (str "json") s /\ ~ occurs (str ".dump(") s /\
  ~ occurs (str ".contains(") s.

(** Whether the first character of a text is a word character; the empty
    text counts as a non-word, as in [at_boundary]. *)
Definition head_is_word (s : text) : bool :=
  match s with
  | c :: _ => is_word c
  | [] => false
  end.

(** [clash u v]: the texts [u] and [v] differ at a position that both
    have, so that [u] is a prefix of no text that starts with [v]. *)
Fixpoint clash (u v : text) : bool :=
  match u, v with
  | x :: u', y :: v' => if x =? y then clash u' v' else true
  | _, _ => false
  end.

(** Every non-empty tail of [u] clashes with [v]. *)
Fixpoint tails_clash (u v : text) : bool :=
  match u with
  | [] => true
  | _ :: u' => clash u v && tails_clash u' v
  end.

(** [u] clashes with every non-empty tail of [v]. *)
Fixpoint clash_tails (u v : text) : bool :=
  match v with
  | [] => true
  | _ :: v' => clash u v && clash_tails u v'
  end.

(** The value of a run of ASCII digits read as a decimal numeral. *)
Fixpoint digits_value_acc (t : text) (acc : nat) : option nat :=
  match t with
  | [] => Some acc
  | c :: t' =>
      if between 48 57 c
      then digits_value_acc t' (10 * acc + N.to_nat (c - 48))
      else None
  end.

(** [decimal_of n t]: the text [t] is the decimal numeral of [n], without
    a leading zero. *)
Definition decimal_of (n : nat) (t : text) : Prop :=
  digits_value_acc t 0 = Some n /\
  match t with
  | [] => False
  | [_] => True
  | c :: _ => c <> ch "0"
  end.

(** The links form an equivalence, and paths that name one file read the
    same. *)
Definition links_equivalence : Prop :=
  (forall p, same_file p p = true) /\
  (forall p q, same_file p q = same_file q p) /\
  (forall p q r, same_file p q = true -> same_file q r = true -> same_file p r = true).

Definition links_agree (fs : gmap (list N) (list N)) : Prop :=
  forall p q, same_file p q = true -> fs !! p = fs !! q.

(** How many paths of the list of discovered files name the file of [p]. *)
Definition times_named (p : text) (cpp_files : list text) : nat :=
  length (List.filter (fun q => same_file q p) cpp_files).

(** A text that starts with a decimal integer literal and a closing
    parenthesis. *)
Definition starts_decimal_call (s : text) : Prop :=
  exists d r, decimal_literal d /\ s = d ++ str ")" ++ r.

(** A text that holds a call of [dump] on an identifier with a decimal
    integer literal as its argument. *)
Definition holds_decimal_dump (s : text) : Prop :=
  exists p w d r,
    identifier w /\ decimal_literal d /\ s = p ++ dump_call w d ++ r.

(** ** What a pattern can match

    [matches r st st']: from [st], the pattern [r] can end at [st'].  The
    relation forgets the order in which the matcher tries its
    alternatives; it is used to show that a pattern matches nowhere. *)
Inductive matches : regex -> mstate -> mstate -> Prop :=
| M_Eps st : matches Eps st st
| M_Lit c bef aft g :
    matches (Lit c) (MState bef (c :: aft) g) (MState (c :: bef) aft g)
| M_Star cl u bef aft g :
    forallb (in_class cl) u = true ->
    matches (Star cl) (MState bef (u ++ aft) g) (MState (rev u ++ bef) aft g)
| M_Plus cl u bef aft g :
    u <> [] -> forallb (in_class cl) u = true ->
    matches (Plus cl) (MState bef (u ++ aft) g) (MState (rev u ++ bef) aft g)
| M_WordB st : at_boundary st = true -> matches WordB st st
| M_Seq a b st1 st2 st3 :
    matches a st1 st2 -> matches b st2 st3 -> matches (Seq a b) st1 st3
| M_Group n a st st' :
    matches a st st' ->
    matches (Group n a) st
      (MState (before st') (after st') ((n, span st st') :: groups st'))
| M_Backref n u bef aft g :
    group_lookup n g = Some u ->
    matches (Backref n) (MState bef (u ++ aft) g) (MState (rev u ++ bef) aft g).

(** Inversion of [matches] along a pattern written out, piece by piece
    from the left. *)
Ltac expose_pattern p H :=
  let r := eval vm_compute in p in change p with r in H.

Ltac invert_match H :=
  inversion H; subst; clear H; cbn [before after groups] in *; subst.

Ltac invert_matches :=
  repeat match goal with
  | H : matches (Seq _ _) _ _ |- _ => invert_match H
  | H : matches Eps _ _ |- _ => invert_match H
  | H : matches (Lit _) (MState _ _ _) _ |- _ => invert_match H
  | H : matches (Plus _) (MState _ _ _) _ |- _ => invert_match H
  | H : matches (Star _) (MState _ _ _) _ |- _ => invert_match H
  | H : matches (Backref _) (MState _ _ _) _ |- _ => invert_match H
  | H : matches (Group _ _) (MState _ _ _) _ |- _ => invert_match H
  end.

(** ** The matcher: basic facts *)

Lemma text_prefix_app (u s : text) : text_prefix u (u ++ s) = Some s.
Proof.
  induction u as [|x u IH]; simpl; [reflexivity|].
  rewrite N.eqb_refl. exact IH.
Qed.

Lemma text_prefix_Some (u s r : text) : text_prefix u s = Some r -> s = u ++ r.
Proof.
  revert s. induction u as [|x u IH]; intros s H; simpl in *.
  - congruence.
  - destruct s as [|y s]; [discriminate|].
    destruct (N.eqb_spec x y) as [->|]; [|discriminate].
    f_equal. apply IH, H.
Qed.

Lemma span_app (u r : text) : firstn (length (u ++ r) - length r) (u ++ r) = u.
Proof.
  rewrite length_app. replace (length u + length r - length r)%nat with (length u) by lia.
  rewrite firstn_app, Nat.sub_diag, firstn_all. simpl. apply app_nil_r.
Qed.

(** Greedy repetition: when the continuation accepts the longest run, that
    is the answer. *)
Lemma star_longest p u rest bef g k res :
  forallb p u = true -> stops p rest ->
  k (MState (rev u ++ bef) rest g) = Some res ->
  star p bef (u ++ rest) g k = Some res.
Proof.
  revert bef. induction u as [|c u IH]; intros bef Hu Hstop Hk; simpl in *.
  - destruct rest as [|c rest]; simpl; [exact Hk|].
    simpl in Hstop. rewrite Hstop. exact Hk.
  - apply andb_prop in Hu as [Hc Hu]. rewrite Hc.
    rewrite (IH (c :: bef)); [reflexivity|assumption|assumption|].
    rewrite <- app_assoc in Hk. exact Hk.
Qed.

Lemma plus_longest p u rest bef g k res :
  u <> [] -> forallb p u = true -> stops p rest ->
  k (MState (rev u ++ bef) rest g) = Some res ->
  plus p bef (u ++ rest) g k = Some res.
Proof.
  intros Hne Hu Hstop Hk. destruct u as [|c u]; [congruence|].
  simpl in *. apply andb_prop in Hu as [Hc Hu]. rewrite Hc.
  apply star_longest; [assumption|assumption|].
  rewrite <- app_assoc in Hk. exact Hk.
Qed.

Lemma rmatch_lits s bef aft g k :
  rmatch (lits s) (MState bef (s ++ aft) g) k = k (MState (rev s ++ bef) aft g).
Proof.
  revert bef. induction s as [|c s IH]; intros bef; simpl; [reflexivity|].
  rewrite N.eqb_refl. unfold lits in IH. rewrite IH, <- app_assoc. reflexivity.
Qed.

Lemma rmatch_group_plus n cl u rest bef g k res :
  u <> [] -> forallb (in_class cl) u = true -> stops (in_class cl) rest ->
  k (MState (rev u ++ bef) rest ((n, u) :: g)) = Some res ->
  rmatch (Group n (Plus cl)) (MState bef (u ++ rest) g) k = Some res.
Proof.
  intros Hne Hu Hstop Hk. simpl.
  apply plus_longest; [assumption|assumption|assumption|].
  unfold span. simpl. rewrite span_app. exact Hk.
Qed.

Lemma rmatch_backref n u bef aft g k :
  group_lookup n g = Some u ->
  rmatch (Backref n) (MState bef (u ++ aft) g) k = k (MState (rev u ++ bef) aft g).
Proof. intros H. simpl. rewrite H, text_prefix_app. reflexivity. Qed.

(** The matcher only finds what the pattern can match. *)
Lemma star_sound p cl bef aft g k res :
  p = in_class cl ->
  star p bef aft g k = Some res ->
  exists st', matches (Star cl) (MState bef aft g) st' /\ k st' = Some res.
Proof.
  intros ->. revert bef. induction aft as [|c aft IH]; intros bef H; simpl in H.
  - exists (MState bef [] g). split; [|exact H].
    apply (M_Star cl [] bef [] g). reflexivity.
  - destruct (in_class cl c) eqn:Hc.
    + destruct (star (in_class cl) (c :: bef) aft g k) as [r|] eqn:Hs.
      * injection H as <-. destruct (IH _ Hs) as (st' & Hm & Hk).
        exists st'. split; [|exact Hk].
        inversion Hm as [| |cl' u bef' aft' g' Hu| | | | |]; subst.
        replace (rev u ++ c :: bef) with (rev (c :: u) ++ bef)
          by (simpl; rewrite <- app_assoc; reflexivity).
        apply (M_Star cl (c :: u) bef aft' g). simpl. rewrite Hc. exact Hu.
      * exists (MState bef (c :: aft) g). split; [|exact H].
        apply (M_Star cl [] bef (c :: aft) g). reflexivity.
    + exists (MState bef (c :: aft) g). split; [|exact H].
      apply (M_Star cl [] bef (c :: aft) g). reflexivity.
Qed.

Lemma rmatch_sound r : forall st k res,
  rmatch r st k = Some res ->
  exists st', matches r st st' /\ k st' = Some res.
Proof.
  induction r as [|c|cl|cl| |a IHa b IHb|n a IHa|n]; intros st k res H; simpl in H.
  - exists st. split; [constructor|exact H].
  - destruct st as [bef aft g]. simpl in H. destruct aft as [|x aft]; [discriminate|].
    destruct (N.eqb_spec x c) as [->|]; [|discriminate].
    eexists. split; [constructor|exact H].
  - destruct st as [bef aft g]. eapply star_sound; [reflexivity|exact H].
  - destruct st as [bef aft g]. simpl in H. unfold plus in H.
    destruct aft as [|c aft]; [discriminate|].
    destruct (in_class cl c) eqn:Hc; [|discriminate].
    destruct (star_sound _ cl _ _ _ _ _ eq_refl H) as (st' & Hm & Hk).
    exists st'. split; [|exact Hk].
    inversion Hm as [| |cl' u bef' aft' g' Hu| | | | |]; subst.
    replace (rev u ++ c :: bef) with (rev (c :: u) ++ bef)
      by (simpl; rewrite <- app_assoc; reflexivity).
    apply (M_Plus cl (c :: u) bef aft' g); [discriminate|].
    simpl. rewrite Hc. exact Hu.
  - destruct (at_boundary st) eqn:Hb; [|discriminate].
    exists st. split; [constructor; exact Hb|exact H].
  - destruct (IHa _ _ _ H) as (st2 & Hm2 & H2).
    destruct (IHb _ _ _ H2) as (st3 & Hm3 & H3).
    exists st3. split; [econstructor; eassumption|exact H3].
  - destruct (IHa _ _ _ H) as (st' & Hm & Hk).
    eexists. split; [constructor; exact Hm|exact Hk].
  - destruct st as [bef aft g]. simpl in H.
    destruct (group_lookup n g) as [u|] eqn:Hg; [|discriminate].
    destruct (text_prefix u aft) as [aft'|] eqn:Hp; [|discriminate].
    apply text_prefix_Some in Hp as ->.
    eexists. split; [constructor; exact Hg|exact H].
Qed.

(** And it finds a match wherever the pattern can match and the rest of the
    pattern accepts: possibly another one, by the order of its tries. *)
Lemma star_complete p u : forall bef aft g k res,
  forallb p u = true ->
  k (MState (rev u ++ bef) aft g) = Some res ->
  exists res', star p bef (u ++ aft) g k = Some res'.
Proof.
  induction u as [|c u IH]; intros bef aft g k res Hu Hk; simpl in *.
  - destruct aft as [|c aft]; simpl; [eauto|].
    destruct (p c); [|eauto].
    destruct (star p (c :: bef) aft g k); eauto.
  - apply andb_prop in Hu as [Hc Hu]. rewrite Hc.
    rewrite <- app_assoc in Hk. destruct (IH (c :: bef) _ _ _ _ Hu Hk) as [res' ->].
    eauto.
Qed.

Lemma rmatch_complete r st st' :
  matches r st st' ->
  forall k res, k st' = Some res -> exists res', rmatch r st k = Some res'.
Proof.
  induction 1 as [st|c bef aft g|cl u bef aft g Hu|cl u bef aft g Hne Hu|st Hb
                  |a b st1 st2 st3 _ IHa _ IHb|n a st st' _ IH|n u bef aft g Hg];
    intros k res Hk; simpl.
  - eauto.
  - rewrite N.eqb_refl. eauto.
  - eapply star_complete; eassumption.
  - destruct u as [|c u]; [congruence|]. simpl in *.
    apply andb_prop in Hu as [Hc Hu]. rewrite Hc.
    rewrite <- app_assoc in Hk. exact (star_complete _ _ (c :: bef) _ _ _ _ Hu Hk).
  - rewrite Hb. eauto.
  - destruct (IHb _ _ Hk) as [res2 H2]. exact (IHa _ _ H2).
  - exact (IH _ _ Hk).
  - rewrite Hg, text_prefix_app. eauto.
Qed.

Lemma match_at_sound r bef aft st :
  match_at r bef aft false = Some st -> matches r (MState bef aft []) st.
Proof.
  unfold match_at. intros H. apply rmatch_sound in H as (st' & Hm & Hk).
  simpl in Hk. injection Hk as <-. exact Hm.
Qed.

(** ** [re.search] and [re.sub]: basic facts *)

Lemma search_none_intro r : forall aft bef,
  (forall p q st, aft = p ++ q -> ~ matches r (MState (rev p ++ bef) q []) st) ->
  search r bef aft = None.
Proof.
  induction aft as [|c aft IH]; intros bef H; simpl.
  - destruct (match_at r bef [] false) as [st|] eqn:Hm; [|reflexivity].
    exfalso. apply (H [] [] st eq_refl). apply match_at_sound, Hm.
  - destruct (match_at r bef (c :: aft) false) as [st|] eqn:Hm.
    + exfalso. apply (H [] (c :: aft) st eq_refl). apply match_at_sound, Hm.
    + apply IH. intros p q st -> Hq.
      apply (H (c :: p) q st eq_refl). simpl. rewrite <- app_assoc. exact Hq.
Qed.

(** [re.search] finds nothing exactly when the pattern can match at no
    position of the subject. *)
Lemma search_none_elim r : forall aft bef,
  search r bef aft = None ->
  forall p q st, aft = p ++ q -> ~ matches r (MState (rev p ++ bef) q []) st.
Proof.
  induction aft as [|c aft IH]; intros bef H p q st E Hm; simpl in H;
    destruct (match_at r bef _ false) eqn:Hat; try discriminate.
  - destruct p; [|discriminate]. simpl in *. subst q.
    destruct (rmatch_complete _ _ _ Hm (fun st => Some st) st eq_refl) as [res' Hr].
    unfold match_at in Hat. simpl in Hat. congruence.
  - destruct p as [|x p]; simpl in *.
    + subst q.
      destruct (rmatch_complete _ _ _ Hm (fun st => Some st) st eq_refl) as [res' Hr].
      unfold match_at in Hat. simpl in Hat. congruence.
    + injection E as <- ->. rewrite <- app_assoc in Hm.
      exact (IH _ H p q st eq_refl Hm).
Qed.

(** Where the pattern matches nowhere, [re.sub] returns its subject. *)
Lemma sub_loop_no_match r t : forall aft bef,
  search r bef aft = None -> sub_loop r t bef aft 0 = aft.
Proof.
  induction aft as [|c aft IH]; intros bef H; simpl in *.
  - destruct (match_at r bef [] false); [discriminate|reflexivity].
  - destruct (match_at r bef (c :: aft) false); [discriminate|].
    f_equal. apply IH, H.
Qed.

Lemma re_sub_no_match r t s : search r [] s = None -> re_sub r t s = s.
Proof. apply sub_loop_no_match. Qed.

Lemma sub_loop_skip r t : forall u rest bef,
  sub_loop r t bef (u ++ rest) (length u) = sub_loop r t (rev u ++ bef) rest 0.
Proof.
  induction u as [|c u IH]; intros rest bef; simpl.
  - destruct rest; reflexivity.
  - rewrite IH, <- app_assoc. reflexivity.
Qed.

(** Where the pattern matches the whole of a non-empty subject from its
    start, and matches nothing at the end of a text, [re.sub] returns the
    expanded template. *)
Lemma re_sub_whole r t s bef' g :
  s <> [] ->
  match_at r [] s false = Some (MState bef' [] g) ->
  (forall bef, match_at r bef [] false = None) ->
  re_sub r t s = expand t g.
Proof.
  intros Hs Hm Hend. unfold re_sub. destruct s as [|c s]; [congruence|].
  simpl. rewrite Hm. unfold match_len. simpl.
  pose proof (sub_loop_skip r t s [] [c]) as Hskip.
  rewrite app_nil_r in Hskip. rewrite Hskip. simpl.
  rewrite Hend. apply app_nil_r.
Qed.

(** ** Rewriting steps of the matcher *)

Lemma rmatch_seq a b st k :
  rmatch (Seq a b) st k = rmatch a st (fun st' => rmatch b st' k).
Proof. reflexivity. Qed.

Lemma rmatch_lit c bef aft g k :
  rmatch (Lit c) (MState bef (c :: aft) g) k = k (MState (c :: bef) aft g).
Proof. simpl. rewrite N.eqb_refl. reflexivity. Qed.

Lemma rmatch_eps st k : rmatch Eps st k = k st.
Proof. reflexivity. Qed.

Lemma lacks_forallb c (s : text) :
  lacks c s -> forallb (in_class (NotChar c)) s = true.
Proof.
  unfold lacks. induction s as [|x s IH]; intros H; simpl; [reflexivity|].
  destruct (N.eqb_spec x c) as [->|Hne]; simpl.
  - exfalso. apply H. left. reflexivity.
  - apply IH. intros Hin. apply H. right. exact Hin.
Qed.

Lemma expand_app t1 t2 g : expand (t1 ++ t2) g = expand t1 g ++ expand t2 g.
Proof. unfold expand. apply flat_map_app. Qed.

Lemma expand_tlits s g : expand (tlits s) g = s.
Proof.
  unfold expand, tlits. induction s as [|c s IH]; simpl; [reflexivity|].
  f_equal. exact IH.
Qed.

Lemma identifier_app_nonempty v (s : text) : identifier v -> v ++ s <> [].
Proof. intros [Hv _]. destruct v; [congruence|discriminate]. Qed.

(** ** Script A, rule 5 on a containment call *)

Lemma contains_match_at v k :
  identifier v -> k <> [] -> lacks dq k ->
  exists bef',
    match_at contains_pattern [] (contains_call v k) false =
    Some (MState bef' [] [(2%nat, k); (1%nat, v)]).
Proof.
  intros [Hv Hw] Hk Hq. eexists.
  unfold match_at, contains_pattern, contains_call, cat. cbn [fold_right app].
  rewrite rmatch_seq.
  apply rmatch_group_plus; [exact Hv|exact Hw|reflexivity|].
  rewrite rmatch_seq, rmatch_lits, rmatch_seq, rmatch_lit, rmatch_seq.
  apply rmatch_group_plus; [exact Hk|apply lacks_forallb, Hq|reflexivity|].
  rewrite rmatch_seq, rmatch_lit, rmatch_seq.
  change (str ")") with [ch ")"]. rewrite rmatch_lit, rmatch_eps.
  cbn [andb]. reflexivity.
Qed.

Lemma contains_no_match_at_end bef :
  match_at contains_pattern bef [] false = None.
Proof. reflexivity. Qed.

Lemma rule5_on_call v k :
  identifier v -> k <> [] -> lacks dq k ->
  rule5 (contains_call v k) = guarded_call v v k.
Proof.
  intros Hv Hk Hq. destruct (contains_match_at v k Hv Hk Hq) as [bef' Hm].
  unfold rule5, contains_call in *.
  rewrite (re_sub_whole _ contains_template _ _ _
             (identifier_app_nonempty _ _ Hv) Hm contains_no_match_at_end).
  unfold contains_template, guarded_call.
  rewrite !expand_app, !expand_tlits. cbn [expand flat_map group_lookup Nat.eqb].
  rewrite !app_nil_r. reflexivity.
Qed.

(** ** The shape of what the patterns match *)

Lemma dump_pattern_shape bef aft g st' :
  matches dump_pattern (MState bef aft g) st' ->
  exists w d rest,
    aft = w ++ str ".dump(" ++ d ++ str ")" ++ rest /\
    forallb is_word w = true /\ d <> [] /\ forallb is_digit d = true.
Proof.
  intros H. expose_pattern dump_pattern H. invert_matches.
  eexists _, _, _. split; [reflexivity|]. auto.
Qed.

Lemma contains_pattern_shape bef aft g st' :
  matches contains_pattern (MState bef aft g) st' ->
  exists w key rest,
    aft = w ++ str ".contains(" ++ [dq] ++ key ++ [dq] ++ str ")" ++ rest /\
    forallb is_word w = true /\ key <> [] /\
    forallb (in_class (NotChar dq)) key = true.
Proof.
  intros H. expose_pattern contains_pattern H. invert_matches.
  eexists _, _, _. split; [reflexivity|]. auto.
Qed.

(** For the pattern of Script B the backreference makes the second run
    of word characters the text of the first. *)
Lemma config_pattern_shape bef aft g st' :
  matches config_pattern (MState bef aft g) st' ->
  exists w key rest,
    aft = w ++ str ".is_object() && " ++ w ++ str ".as_object().contains(" ++
          [dq] ++ key ++ [dq] ++ str ")" ++ rest /\
    forallb is_word w = true /\ key <> [] /\
    forallb (in_class (NotChar dq)) key = true.
Proof.
  intros H. expose_pattern config_pattern H. invert_matches.
  match goal with
  | Hg : group_lookup _ _ = Some _ |- _ =>
      cbn [group_lookup Nat.eqb] in Hg; unfold span in Hg; cbn [after] in Hg;
      rewrite span_app in Hg; injection Hg as <-
  end.
  eexists _, _, _. split; [reflexivity|]. auto.
Qed.

(** ** Texts with a single occurrence of a character *)

Lemma split_once (c : N) : forall (l r l' r' : list N),
  ~ In c l -> ~ In c r ->
  l ++ c :: r = l' ++ c :: r' -> l = l' /\ r = r'.
Proof.
  induction l as [|y l IH]; intros r l' r' Hl Hr E; destruct l' as [|x l']; simpl in E.
  - injection E as ->. split; reflexivity.
  - injection E as <- ->. exfalso. apply Hr, in_or_app. right. left. reflexivity.
  - injection E as -> _. exfalso. apply Hl. left. reflexivity.
  - injection E as -> E. destruct (IH r l' r') as [-> ->]; [| |exact E|split; reflexivity].
    + intros Hin. apply Hl. right. exact Hin.
    + exact Hr.
Qed.

(** Up to the first occurrence: the other splitting is the same, or it
    splits at a later occurrence. *)
Lemma split_first (c : N) : forall (l r l' r' : list N),
  ~ In c l ->
  l ++ c :: r = l' ++ c :: r' ->
  (l = l' /\ r = r') \/ (exists m, l' = l ++ c :: m /\ r = m ++ c :: r').
Proof.
  induction l as [|y l IH]; intros r l' r' Hl E; destruct l' as [|x l']; simpl in E.
  - injection E as ->. left. split; reflexivity.
  - injection E as <- ->. right. exists l'. split; reflexivity.
  - injection E as -> _. exfalso. apply Hl. left. reflexivity.
  - injection E as -> E. destruct (IH r l' r') as [[-> ->]|(m & -> & ->)].
    + intros Hin. apply Hl. right. exact Hin.
    + exact E.
    + left. split; reflexivity.
    + right. exists m. split; reflexivity.
Qed.

(** From the last occurrence on. *)
Lemma split_last (c : N) : forall (l r l' r' : list N),
  ~ In c r -> ~ In c r' ->
  l ++ c :: r = l' ++ c :: r' -> l = l' /\ r = r'.
Proof.
  induction l as [|y l IH]; intros r l' r' Hr Hr' E; destruct l' as [|x l']; simpl in E.
  - injection E as ->. split; reflexivity.
  - injection E as <- ->. exfalso. apply Hr, in_or_app. right. left. reflexivity.
  - injection E as -> <-. exfalso. apply Hr', in_or_app. right. left. reflexivity.
  - injection E as -> E. destruct (IH r l' r' Hr Hr' E) as [-> ->]. split; reflexivity.
Qed.

Lemma class_lacks (p : N -> bool) (c : N) (s : list N) :
  forallb p s = true -> p c = false -> ~ In c s.
Proof.
  intros Hs Hc Hin. rewrite forallb_forall in Hs. apply Hs in Hin. congruence.
Qed.

(** ** Where rule 4, rule 5 and the rule of Script B match nothing *)

Lemma word_run_lacks_paren v (s : text) :
  forallb is_word v = true ->
  (forall x, In x s -> x <> ch "(") ->
  ~ In (ch "(") (v ++ s).
Proof.
  intros Hw Hs Hin. apply in_app_or in Hin as [Hin|Hin].
  - revert Hin. apply (class_lacks is_word); [exact Hw|reflexivity].
  - exact (Hs _ Hin eq_refl).
Qed.

(** With an empty key the call holds a single opening parenthesis, and
    two double quotes follow it: neither pattern matches. *)
Lemma contains_no_match_empty_key v :
  identifier v -> search contains_pattern [] (contains_call v []) = None.
Proof.
  intros [_ Hw]. apply search_none_intro.
  intros p q st E Hm.
  apply contains_pattern_shape in Hm as (w & key & rest & -> & _ & Hk & Hq).
  unfold contains_call in E.
  assert (E' : (v ++ str ".contains") ++ ch "(" :: [dq; dq; ch ")"] =
               (p ++ w ++ str ".contains") ++
               ch "(" :: ([dq] ++ key ++ [dq] ++ str ")" ++ rest)).
  { rewrite <- !app_assoc. exact E. }
  apply split_once in E' as [_ E'].
  - destruct key as [|x key]; [congruence|].
    simpl in Hq. injection E' as E' _. subst x.
    vm_compute in Hq. discriminate.
  - apply word_run_lacks_paren; [exact Hw|no_paren_in_literal].
  - not_in_literal.
Qed.

Lemma config_no_match_empty_key v :
  identifier v -> search config_pattern [] (contains_call v []) = None.
Proof.
  intros [_ Hw]. apply search_none_intro.
  intros p q st E Hm.
  apply config_pattern_shape in Hm as (w & key & rest & -> & _ & Hk & Hq).
  unfold contains_call in E.
  assert (E' : (v ++ str ".contains") ++ ch "(" :: [dq; dq; ch ")"] =
               (p ++ w ++ str ".is_object") ++
               ch "(" :: (str ") && " ++ w ++ str ".as_object().contains(" ++
                          [dq] ++ key ++ [dq] ++ str ")" ++ rest)).
  { rewrite <- !app_assoc. exact E. }
  apply split_once in E' as [_ E'].
  - vm_compute in E'. discriminate.
  - apply word_run_lacks_paren; [exact Hw|no_paren_in_literal].
  - not_in_literal.
Qed.

(** Where the two conjuncts name [a] and [b], a match of the pattern of
    Script B makes [b] a suffix of [a]. *)
Lemma config_no_match_other_variable a b k :
  identifier a -> identifier b -> lacks dq k -> ~ suffix b a ->
  search config_pattern [] (guarded_call a b k) = None.
Proof.
  intros [_ Ha] [_ Hb] Hq Hsuf. apply search_none_intro.
  intros p q st E Hm.
  apply config_pattern_shape in Hm as (w & key & rest & -> & Hw & Hk & Hkey).
  unfold guarded_call in E.
  assert (E' : (a ++ str ".is_object() && " ++ b ++ str ".as_object().contains(") ++
               dq :: (k ++ dq :: str ")") =
               (p ++ w ++ str ".is_object() && " ++ w ++ str ".as_object().contains(") ++
               dq :: (key ++ dq :: str ")" ++ rest)).
  { rewrite <- !app_assoc. exact E. }
  apply split_first in E' as [[E' _]|(m & _ & E')].
  - assert (E2 : (a ++ str ".is_object() &&") ++ ch " " :: b =
                 (p ++ w ++ str ".is_object() &&") ++ ch " " :: w).
    { apply (app_inv_tail (str ".as_object().contains(")).
      rewrite <- !app_assoc. exact E'. }
    apply split_last in E2 as [E2 <-].
    + apply Hsuf. exists p. apply (app_inv_tail (str ".is_object() &&")).
      rewrite <- !app_assoc. exact E2.
    + apply (class_lacks is_word); [exact Hb|reflexivity].
    + apply (class_lacks is_word); [exact Hw|reflexivity].
  - apply split_once in E' as [_ E']; [|exact Hq|not_in_literal].
    assert (Hin : In dq (str ")")).
    { rewrite E'. apply in_or_app. right. left. reflexivity. }
    revert Hin. not_in_literal.
  - intros Hin.
    repeat (apply in_app_or in Hin as [Hin|Hin]);
      try (revert Hin; apply (class_lacks is_word); [assumption|reflexivity]);
      revert Hin; not_in_literal.
Qed.

Lemma config_sub_other_variable a b k :
  identifier a -> identifier b -> lacks dq k -> ~ suffix b a ->
  config_sub (guarded_call a b k) = guarded_call a b k.
Proof.
  intros Ha Hb Hq Hsuf. apply re_sub_no_match.
  apply config_no_match_other_variable; assumption.
Qed.

(** ** Script B on a guarded containment check *)

Lemma config_match_at v k :
  identifier v -> k <> [] -> lacks dq k ->
  exists bef',
    match_at config_pattern [] (guarded_call v v k) false =
    Some (MState bef' [] [(2%nat, k); (1%nat, v)]).
Proof.
  intros [Hv Hw] Hk Hq. eexists.
  unfold match_at, config_pattern, guarded_call, cat. cbn [fold_right app].
  rewrite rmatch_seq.
  apply rmatch_group_plus; [exact Hv|exact Hw|reflexivity|].
  rewrite rmatch_seq, rmatch_lits, rmatch_seq, rmatch_backref by reflexivity.
  rewrite rmatch_seq, rmatch_lits, rmatch_seq, rmatch_lit, rmatch_seq.
  apply rmatch_group_plus; [exact Hk|apply lacks_forallb, Hq|reflexivity|].
  rewrite rmatch_seq, rmatch_lit, rmatch_seq.
  change (str ")") with [ch ")"]. rewrite rmatch_lit, rmatch_eps.
  cbn [andb]. reflexivity.
Qed.

Lemma config_no_match_at_end bef :
  match_at config_pattern bef [] false = None.
Proof. reflexivity. Qed.

Lemma config_sub_on_guarded v k :
  identifier v -> k <> [] -> lacks dq k ->
  config_sub (guarded_call v v k) = contains_call v k.
Proof.
  intros Hv Hk Hq. destruct (config_match_at v k Hv Hk Hq) as [bef' Hm].
  unfold config_sub, guarded_call in *.
  rewrite (re_sub_whole _ config_template _ _ _
             (identifier_app_nonempty _ _ Hv) Hm config_no_match_at_end).
  unfold config_template, contains_call.
  rewrite !expand_app, !expand_tlits. cbn [expand flat_map group_lookup Nat.eqb].
  rewrite !app_nil_r. reflexivity.
Qed.

(** ** Script A, rule 4 on a serialization call *)

Lemma dump_match_at v n :
  identifier v -> decimal_literal n ->
  exists bef',
    match_at dump_pattern [] (dump_call v n) false =
    Some (MState bef' [] [(2%nat, n); (1%nat, v)]).
Proof.
  intros [Hv Hw] [Hn Hd]. eexists.
  unfold match_at, dump_pattern, dump_call, cat. cbn [fold_right app].
  rewrite rmatch_seq.
  apply rmatch_group_plus; [exact Hv|exact Hw|reflexivity|].
  rewrite rmatch_seq, rmatch_lits, rmatch_seq.
  apply rmatch_group_plus; [exact Hn|exact Hd|reflexivity|].
  rewrite rmatch_seq.
  change (str ")") with [ch ")"]. rewrite rmatch_lit, rmatch_eps.
  cbn [andb]. reflexivity.
Qed.

Lemma dump_no_match_at_end bef :
  match_at dump_pattern bef [] false = None.
Proof. reflexivity. Qed.

(** ** Script A, rule 2: the array rule run twice *)

(** C1.  The array rule of line 19 is not idempotent.  On [json::array()]
    one application gives [boost::json::array()]; the [json::array()]
    inside that output again starts at a word boundary (a colon stands
    before it), so a second application gives
    [boost::boost::json::array()], which is not what one application
    gave.  The whole transform of Script A does the same to a text that
    already reads [boost::json::array()]. *)
Theorem array_rule_applied_twice :
  rule2a (str "json::array()") = str "boost::json::array()" /\
  rule2a (rule2a (str "json::array()")) = str "boost::boost::json::array()" /\
  rule2a (rule2a (str "json::array()")) <> rule2a (str "json::array()") /\
  fix_content (str "boost::json::array()") = str "boost::boost::json::array()".
Proof.
  assert (H1 : rule2a (str "json::array()") = str "boost::json::array()")
    by (vm_compute; reflexivity).
  assert (H2 : rule2a (str "boost::json::array()") = str "boost::boost::json::array()")
    by (vm_compute; reflexivity).
  rewrite H1, H2. split; [reflexivity|]. split; [reflexivity|]. split.
  - vm_compute. discriminate.
  - vm_compute. reflexivity.
Qed.

(** ** Script A, rule 1 *)

(** C4.  On the declaration [json foo;] followed, on the next line and
    after four blanks, by the bracket-indexed assignment to [foo], rule 1
    produces [boost::json::object foo;] followed by the same line: the
    indentation and the assignment are kept.  The other rules leave that
    output alone, so the whole transform of Script A produces it too. *)
Theorem rule1_declaration_example :
  rule1 declaration_example = declaration_example_fixed /\
  fix_content declaration_example = declaration_example_fixed.
Proof. split; vm_compute; reflexivity. Qed.

(** ** Script A, rule 5 *)

(** C5, as amended.  For every identifier [v] and every non-empty key [k]
    without a double quote, rule 5 rewrites the containment call on [v]
    and [k] to the guarded conjunction: the check that [v] is an object,
    then the containment check on the object. *)
Theorem rule5_guards_containment v k :
  identifier v -> k <> [] -> lacks dq k ->
  rule5 (contains_call v k) = guarded_call v v k.
Proof. apply rule5_on_call. Qed.

(** With the empty key the call is left as it is. *)
Lemma rule5_empty_key :
  rule5 (contains_call (str "v") []) = contains_call (str "v") [].
Proof. vm_compute. reflexivity. Qed.

(** ** Script B after rule 5 *)

(** C2.  For every identifier [v] and every key [k] without a double
    quote, the substitution of Script B, applied to what rule 5 of Script A
    produces from the containment call on [v] and [k], gives that call
    back.  For a non-empty key what rule 5 produces is the guarded
    conjunction, which Script B collapses; for the empty key rule 5 leaves
    the call alone and so does Script B. *)
Theorem config_sub_inverts_rule5 v k :
  identifier v -> lacks dq k ->
  config_sub (rule5 (contains_call v k)) = contains_call v k /\
  (k <> [] ->
   rule5 (contains_call v k) = guarded_call v v k /\
   config_sub (guarded_call v v k) = contains_call v k).
Proof.
  intros Hv Hq. split.
  - destruct k as [|c k].
    + unfold rule5. rewrite re_sub_no_match by (apply contains_no_match_empty_key, Hv).
      apply re_sub_no_match, config_no_match_empty_key, Hv.
    + rewrite rule5_on_call by (assumption || discriminate).
      apply config_sub_on_guarded; (assumption || discriminate).
  - intros Hk. split; [apply rule5_on_call|apply config_sub_on_guarded]; assumption.
Qed.

(** ** Script A, rule 4 *)

(** C6.  For every identifier [v] and every decimal integer literal [n],
    rule 4 rewrites the call of [dump] on [v] with the argument [n] to the
    call of the free function [boost::json::serialize] on [v]; the
    argument is dropped. *)
Theorem rule4_serializes_dump v n :
  identifier v -> decimal_literal n ->
  rule4 (dump_call v n) = serialize_call v.
Proof.
  intros Hv Hn. destruct (dump_match_at v n Hv Hn) as [bef' Hm].
  unfold rule4, dump_call in *.
  rewrite (re_sub_whole _ dump_template _ _ _
             (identifier_app_nonempty _ _ Hv) Hm dump_no_match_at_end).
  unfold dump_template, serialize_call.
  rewrite !expand_app, !expand_tlits. cbn [expand flat_map group_lookup Nat.eqb].
  rewrite !app_nil_r. reflexivity.
Qed.

(** ** Script B on two different variables *)

(** C10.  The two conjuncts of [xa.is_object() && a.as_object().contains(k)],
    with [k] in double quotes, name the distinct identifiers [xa] and [a].
    The pattern of Script B is not anchored at a word boundary: it matches
    from the [a] of [xa] on, and the substitution collapses the text to the
    containment call on [xa]. *)
Theorem config_sub_suffix_variable :
  config_sub (guarded_call (str "xa") (str "a") (str "k")) =
  contains_call (str "xa") (str "k") /\
  guarded_call (str "xa") (str "a") (str "k") <> contains_call (str "xa") (str "k").
Proof. split; [vm_compute; reflexivity|vm_compute; discriminate]. Qed.

(** ** Script A: one file *)

Lemma text_eqb_refl (a : text) : text_eqb a a = true.
Proof. unfold text_eqb. apply bool_decide_eq_true. reflexivity. Qed.

Lemma fix_content_no_match content :
  Forall (fun r => search r [] content = None) scriptA_patterns ->
  fix_content content = content.
Proof.
  intros H. unfold scriptA_patterns in H.
  repeat match goal with
         | H : Forall _ (_ :: _) |- _ => apply Forall_cons_iff in H as [? H]
         end.
  unfold fix_content, rule1, rule2a, rule2b, rule3a, rule3b, rule4, rule5.
  cbv zeta.
  rewrite (re_sub_no_match rule1_pattern) by assumption.
  rewrite (re_sub_no_match array_pattern) by assumption.
  rewrite (re_sub_no_match value_array_pattern) by assumption.
  rewrite (re_sub_no_match object_pattern) by assumption.
  rewrite (re_sub_no_match value_object_pattern) by assumption.
  rewrite (re_sub_no_match dump_pattern) by assumption.
  apply re_sub_no_match. assumption.
Qed.

Lemma lookup_write_to path content fs q :
  write_to path content fs !! q =
  if bool_decide (path = q) then Some content
  else (fun old => if same_file path q then content else old) <$> fs !! q.
Proof.
  unfold write_to. rewrite lookup_insert. case_bool_decide as Hq.
  - rewrite decide_True by exact Hq. reflexivity.
  - rewrite decide_False by exact Hq. rewrite map_lookup_imap.
    destruct (fs !! q); reflexivity.
Qed.

(** What one call does: nothing when the transform returns the content it
    read; else one write and one line, or an exception when the file
    cannot be written. *)
Lemma fix_boost_json_file_run filepath content w :
  files w !! filepath = Some content ->
  fix_boost_json_file filepath w =
  if text_eqb (fix_content content) content
  then Some (false, w)
  else if can_write filepath
       then Some (true,
                  World (write_to filepath (fix_content content) (files w))
                        (trace w ++ [EvWrite filepath (fix_content content);
                                     EvPrint (fixed_line filepath)]))
       else None.
Proof.
  intros Hf. unfold fix_boost_json_file, bind, read_file, write_file. rewrite Hf.
  cbv zeta.
  destruct (text_eqb (fix_content content) content); simpl; [reflexivity|].
  destruct (can_write filepath); [|reflexivity].
  unfold print. simpl. rewrite <- app_assoc. reflexivity.
Qed.

(** C3.  For every file whose content none of the seven patterns of
    Script A matches, [fix_boost_json_file] returns [False] and leaves the
    world as it found it: no file is written, so the file keeps its
    content, and no line is printed. *)
Theorem unmatched_file_left_alone w filepath content :
  files w !! filepath = Some content ->
  Forall (fun r => search r [] content = None) scriptA_patterns ->
  fix_boost_json_file filepath w = Some (false, w).
Proof.
  intros Hf Hnone. rewrite (fix_boost_json_file_run _ _ _ Hf).
  rewrite (fix_content_no_match _ Hnone), text_eqb_refl. reflexivity.
Qed.

(** ** Script B *)

(** C7.  Whatever [src/config.cpp] holds, when the file can be opened
    for writing Script B writes the result of its substitution to
    [src/config.cpp] and then prints [Fixed config.cpp]; these are its only
    two effects.  Where the pattern matches nowhere, what it writes is the
    content it read. *)
Theorem fix_config_always_writes w content :
  files w !! config_path = Some content ->
  can_write config_path = true ->
  fix_config w =
    Some (tt, World (write_to config_path (config_sub content) (files w))
                    (trace w ++ [EvWrite config_path (config_sub content);
                                 EvPrint (str "Fixed config.cpp")])) /\
  write_to config_path (config_sub content) (files w) !! config_path =
    Some (config_sub content) /\
  (search config_pattern [] content = None -> config_sub content = content).
Proof.
  intros Hf Hw. split; [|split].
  - unfold fix_config, bind, read_file, write_file. rewrite Hf. cbv zeta.
    rewrite Hw. unfold print. simpl. rewrite <- app_assoc. reflexivity.
  - rewrite lookup_write_to. rewrite bool_decide_eq_true_2; reflexivity.
  - apply re_sub_no_match.
Qed.

(** A file that cannot be written ends Script B with an exception. *)
Lemma fix_config_read_only w content :
  files w !! config_path = Some content ->
  can_write config_path = false ->
  fix_config w = None.
Proof.
  intros Hf Hw. unfold fix_config, bind, read_file, write_file.
  rewrite Hf. cbv zeta. rewrite Hw. reflexivity.
Qed.

(** ** Script A: the run over all files *)

Lemma fix_boost_json_file_keeps_files filepath w b w' p :
  fix_boost_json_file filepath w = Some (b, w') ->
  is_Some (files w !! p) -> is_Some (files w' !! p).
Proof.
  intros Hrun Hp.
  destruct (files w !! filepath) as [content|] eqn:Hf.
  - rewrite (fix_boost_json_file_run _ _ _ Hf) in Hrun.
    destruct (text_eqb (fix_content content) content).
    + injection Hrun as <- <-. exact Hp.
    + destruct (can_write filepath); [|discriminate].
      injection Hrun as <- <-. simpl. rewrite lookup_write_to.
      case_bool_decide; [eauto|]. destruct Hp as [old ->]. simpl. eauto.
  - unfold fix_boost_json_file, bind, read_file in Hrun. rewrite Hf in Hrun.
    discriminate.
Qed.

Lemma fix_all_run : forall cpp_files w n n' w',
  fix_all cpp_files n w = Some (n', w') ->
  exists results evs,
    fix_results cpp_files w = Some (results, w') /\
    n' = (n + length (fixed_files cpp_files results))%nat /\
    trace w' = trace w ++ evs /\
    prints evs = List.map fixed_line (fixed_files cpp_files results) /\
    writes evs = fixed_files cpp_files results /\
    length (fixed_files cpp_files results) = count_occ Bool.bool_dec results true.
Proof.
  induction cpp_files as [|f fs IH]; intros w n n' w' Hall; simpl in Hall.
  - injection Hall as <- <-. exists [], []. simpl. unfold ret.
    rewrite Nat.add_0_r, app_nil_r. auto 10.
  - unfold bind in Hall.
    destruct (fix_boost_json_file f w) as [[b w1]|] eqn:Hrun; [|discriminate].
    destruct (IH _ _ _ _ Hall) as (results & evs & Hr & Hn & Ht & Hp & Hw & Hc).
    destruct (files w !! f) as [content|] eqn:Hf.
    2:{ unfold fix_boost_json_file, bind, read_file in Hrun. rewrite Hf in Hrun.
        discriminate. }
    pose proof Hrun as Hcall.
    rewrite (fix_boost_json_file_run _ _ _ Hf) in Hrun.
    destruct (text_eqb (fix_content content) content).
    + injection Hrun as <- <-.
      exists (false :: results), evs. simpl. unfold bind. rewrite Hcall, Hr. simpl.
      auto 10.
    + destruct (can_write f); [|discriminate]. injection Hrun as <- <-.
      exists (true :: results),
             ([EvWrite f (fix_content content); EvPrint (fixed_line f)] ++ evs).
      simpl. unfold bind. rewrite Hcall, Hr. simpl.
      simpl in Ht. rewrite Ht, Hp, Hw, Hc, Hn, Hc, <- app_assoc.
      repeat split; try reflexivity. lia.
Qed.

(** The decimal digits of a counter read back as the counter. *)
Lemma digits_value_of_uint d : forall acc,
  digits_value_acc (str (NilEmpty.string_of_uint d)) acc =
  Some (Nat.of_uint_acc d acc).
Proof.
  induction d as [|d IH|d IH|d IH|d IH|d IH|d IH|d IH|d IH|d IH|d IH];
    intros acc; [reflexivity|..];
    cbn [NilEmpty.string_of_uint Nat.of_uint_acc];
    change (str (String ?c ?r)) with (N_of_ascii c :: str r);
    cbn [digits_value_acc]; change (between 48 57 (N_of_ascii _)) with true;
    cbv iota; rewrite IH, Nat.tail_mul_spec; f_equal; f_equal;
    change (N.to_nat (N_of_ascii _ - 48)) with 0%nat
    || change (N.to_nat (N_of_ascii _ - 48)) with 1%nat
    || change (N.to_nat (N_of_ascii _ - 48)) with 2%nat
    || change (N.to_nat (N_of_ascii _ - 48)) with 3%nat
    || change (N.to_nat (N_of_ascii _ - 48)) with 4%nat
    || change (N.to_nat (N_of_ascii _ - 48)) with 5%nat
    || change (N.to_nat (N_of_ascii _ - 48)) with 6%nat
    || change (N.to_nat (N_of_ascii _ - 48)) with 7%nat
    || change (N.to_nat (N_of_ascii _ - 48)) with 8%nat
    || change (N.to_nat (N_of_ascii _ - 48)) with 9%nat; lia.
Qed.

Lemma nzhead_starts d :
  match Decimal.nzhead d with
  | Decimal.D0 _ => False
  | _ => True
  end.
Proof. induction d; simpl; auto. Qed.

Lemma decimal_is_decimal_of n : decimal_of n (decimal n).
Proof.
  unfold decimal_of, decimal.
  assert (Hnorm : Nat.to_uint n = Decimal.unorm (Nat.to_uint n)).
  { rewrite <- DecimalNat.Unsigned.to_of, DecimalNat.Unsigned.of_to. reflexivity. }
  assert (Hval : Nat.of_uint (Nat.to_uint n) = n) by apply DecimalNat.Unsigned.of_to.
  revert Hnorm Hval. generalize (Nat.to_uint n) as d. intros d Hnorm Hval.
  split.
  - destruct d; [subst n; reflexivity|..];
      cbn [NilZero.string_of_uint]; rewrite digits_value_of_uint;
      f_equal; exact Hval.
  - pose proof (nzhead_starts d) as Hz. unfold Decimal.unorm in Hnorm.
    destruct (Decimal.nzhead d) eqn:Hnz; try contradiction; subst d;
      try exact I;
      cbn [NilZero.string_of_uint NilEmpty.string_of_uint];
      match goal with
      | |- context [NilEmpty.string_of_uint ?u] =>
          destruct u; try exact I; cbn [NilEmpty.string_of_uint];
          change (str (String ?c ?r)) with (N_of_ascii c :: str r);
          change (str (String ?c ?r)) with (N_of_ascii c :: str r);
          cbv iota; discriminate
      end.
Qed.

(** C8.  For every run of [main] that ends normally, what it printed is
    one [Fixed: path] line for each file for which [fix_boost_json_file]
    returned [True], in the order of the calls, followed by the line
    [Fixed N files], where [N], in decimal digits, is the number of [True]
    among the return values.  The files written are those same files, one
    write each, so [N] is also the number of files rewritten. *)
Theorem main_output w u w' :
  main w = Some (u, w') ->
  let cpp_files := flat_map (glob (files w)) glob_patterns in
  exists results w1 evs digits,
    fix_results cpp_files w = Some (results, w1) /\
    w' = World (files w1) (trace w ++ evs) /\
    prints evs =
      List.map fixed_line (fixed_files cpp_files results) ++
      [str "Fixed " ++ digits ++ str " files"] /\
    decimal_of (count_occ Bool.bool_dec results true) digits /\
    writes evs = fixed_files cpp_files results /\
    length (writes evs) = count_occ Bool.bool_dec results true.
Proof.
  intros Hmain cpp_files. unfold main, bind, find_cpp_files in Hmain.
  fold cpp_files in Hmain.
  destruct (fix_all cpp_files 0%nat w) as [[n w1]|] eqn:Hall; [|discriminate].
  destruct (fix_all_run _ _ _ _ _ Hall) as (results & evs & Hr & Hn & Ht & Hp & Hw & Hc).
  simpl in Hn. subst n. rewrite Hc in Hmain.
  unfold print in Hmain. injection Hmain as _ <-.
  exists results, w1,
    (evs ++ [EvPrint (count_line (count_occ Bool.bool_dec results true))]),
    (decimal (count_occ Bool.bool_dec results true)).
  split; [exact Hr|]. split; [rewrite Ht, <- app_assoc; reflexivity|].
  split; [|split; [apply decimal_is_decimal_of|split]].
  - unfold prints in *. rewrite flat_map_app, Hp. reflexivity.
  - unfold writes in *. rewrite flat_map_app, Hw. simpl. apply app_nil_r.
  - unfold writes in *. rewrite flat_map_app, Hw. simpl. rewrite app_nil_r. exact Hc.
Qed.

(** [main] ends normally when every path the glob returns can be read and
    written. *)
Lemma fix_all_ends : forall cpp_files w n,
  (forall p, In p cpp_files -> is_Some (files w !! p)) ->
  (forall p, In p cpp_files -> can_write p = true) ->
  exists n' w', fix_all cpp_files n w = Some (n', w').
Proof.
  induction cpp_files as [|f fs IH]; intros w n Hr Hw; simpl; [unfold ret; eauto|].
  destruct (Hr f (or_introl eq_refl)) as [content Hf].
  unfold bind. pose proof (fix_boost_json_file_run f content w Hf) as Hrun.
  rewrite (Hw f (or_introl eq_refl)) in Hrun.
  assert (Hsome : exists b w1, fix_boost_json_file f w = Some (b, w1))
    by (rewrite Hrun; destruct (text_eqb _ _); eauto).
  destruct Hsome as (b & w1 & Hb). rewrite Hb. apply IH.
  - intros p Hp. eapply fix_boost_json_file_keeps_files; [exact Hb|].
    apply Hr. right. exact Hp.
  - intros p Hp. apply Hw. right. exact Hp.
Qed.

Lemma main_ends w :
  (forall pat p, In p (glob (files w) pat) ->
     is_Some (files w !! p) /\ can_write p = true) ->
  exists w', main w = Some (tt, w').
Proof.
  intros H. unfold main, bind, find_cpp_files.
  destruct (fix_all_ends (flat_map (glob (files w)) glob_patterns) w 0%nat)
    as (n & w1 & Hall).
  - intros p Hp. apply in_flat_map in Hp as (pat & _ & Hp). apply (H pat p Hp).
  - intros p Hp. apply in_flat_map in Hp as (pat & _ & Hp). apply (H pat p Hp).
  - rewrite Hall. unfold print. eauto.
Qed.

(** ** Literal patterns behind a word boundary

    Rules 2 and 3 have the pattern [\b] followed by a literal. *)

Lemma rmatch_lits_prefix s : forall st k,
  rmatch (lits s) st k =
  match text_prefix s (after st) with
  | Some rest => k (MState (rev s ++ before st) rest (groups st))
  | None => None
  end.
Proof.
  induction s as [|c s IH]; intros [bef aft g] k; simpl; [reflexivity|].
  destruct aft as [|x aft]; [reflexivity|].
  rewrite (N.eqb_sym c x). destruct (N.eqb_spec x c) as [->|]; [|reflexivity].
  unfold lits in IH. rewrite IH. simpl. rewrite <- app_assoc. reflexivity.
Qed.

Lemma match_at_word_literal l bef aft ma :
  match_at (cat [WordB; lits l]) bef aft ma =
  if at_boundary (MState bef aft []) then
    match text_prefix l aft with
    | Some rest =>
        if ma && (length rest =? length aft)%nat then None
        else Some (MState (rev l ++ bef) rest [])
    | None => None
    end
  else None.
Proof.
  unfold match_at, cat. cbn [fold_right rmatch].
  destruct (at_boundary _); [|reflexivity].
  rewrite rmatch_lits_prefix. cbn [before after groups].
  destruct (text_prefix l aft); reflexivity.
Qed.

Lemma matches_lits l : forall bef aft g st',
  matches (lits l) (MState bef aft g) st' ->
  exists rest, aft = l ++ rest /\ st' = MState (rev l ++ bef) rest g.
Proof.
  induction l as [|c l IH]; intros bef aft g st' H; simpl in H.
  - inversion H; subst. exists aft. split; reflexivity.
  - inversion H as [| | | | |a b st1 st2 st3 Ha Hb| |]; subst.
    inversion Ha; subst. apply IH in Hb as (rest & -> & ->).
    exists rest. simpl. rewrite <- app_assoc. split; reflexivity.
Qed.

Lemma word_literal_shape l bef aft g st' :
  matches (cat [WordB; lits l]) (MState bef aft g) st' ->
  at_boundary (MState bef aft g) = true /\
  exists rest, aft = l ++ rest /\ st' = MState (rev l ++ bef) rest g.
Proof.
  unfold cat. cbn [fold_right]. intros H.
  inversion H as [| | | | |a b st1 st2 st3 Ha Hb| |]; subst.
  inversion Ha as [| | | |st Hbd| | |]; subst.
  inversion Hb as [| | | | |a b st1 st2 st3 Hl He| |]; subst.
  inversion He; subst. split; [exact Hbd|]. apply matches_lits, Hl.
Qed.

(** ** Texts without the literals of the patterns *)

Lemma occurs_in_suffix l p q : occurs l q -> occurs l (p ++ q).
Proof.
  intros (p' & q' & ->). exists (p ++ p'), q'. rewrite <- app_assoc. reflexivity.
Qed.

Lemma search_none_without l r s bef :
  (forall bef' aft g st, matches r (MState bef' aft g) st -> occurs l aft) ->
  ~ occurs l s -> search r bef s = None.
Proof.
  intros Hshape Hno. apply search_none_intro. intros p q st -> Hm.
  apply Hno, occurs_in_suffix. exact (Hshape _ _ _ _ Hm).
Qed.

Lemma word_literal_needs l pre post :
  forall bef aft g st,
    matches (cat [WordB; lits (pre ++ l ++ post)]) (MState bef aft g) st ->
    occurs l aft.
Proof.
  intros bef aft g st H. apply word_literal_shape in H as (_ & rest & -> & _).
  exists pre, (post ++ rest). rewrite <- !app_assoc. reflexivity.
Qed.

Lemma rule1_pattern_needs bef aft g st :
  matches rule1_pattern (MState bef aft g) st -> occurs (str "json") aft.
Proof.
  intros H. expose_pattern rule1_pattern H.
  inversion H as [| | | | |a b st1 st2 st3 Ha Hb| |]; subst.
  inversion Ha; subst. invert_matches.
  eexists [], _. reflexivity.
Qed.

Lemma dump_pattern_needs bef aft g st :
  matches dump_pattern (MState bef aft g) st -> occurs (str ".dump(") aft.
Proof.
  intros H. apply dump_pattern_shape in H as (w & d & rest & -> & _).
  exists w, (d ++ str ")" ++ rest). reflexivity.
Qed.

Lemma contains_pattern_needs bef aft g st :
  matches contains_pattern (MState bef aft g) st -> occurs (str ".contains(") aft.
Proof.
  intros H. apply contains_pattern_shape in H as (w & key & rest & -> & _).
  exists w, ([dq] ++ key ++ [dq] ++ str ")" ++ rest). reflexivity.
Qed.

Lemma config_pattern_needs bef aft g st :
  matches config_pattern (MState bef aft g) st ->
  occurs (str ".is_object() && ") aft.
Proof.
  intros H. apply config_pattern_shape in H as (w & key & rest & -> & _).
  eexists w, _. reflexivity.
Qed.

Lemma trigger_free_no_match s :
  trigger_free s -> Forall (fun r => search r [] s = None) scriptA_patterns.
Proof.
  intros (Hj & Hd & Hc). unfold scriptA_patterns. repeat constructor.
  - exact (search_none_without _ _ _ _ rule1_pattern_needs Hj).
  - exact (search_none_without _ _ _ _ (word_literal_needs _ [] (str "::array()")) Hj).
  - exact (search_none_without _ _ _ _
             (word_literal_needs _ (str "boost::") (str "::value::array()")) Hj).
  - exact (search_none_without _ _ _ _ (word_literal_needs _ [] (str "::object()")) Hj).
  - exact (search_none_without _ _ _ _
             (word_literal_needs _ (str "boost::") (str "::value::object()")) Hj).
  - exact (search_none_without _ _ _ _ dump_pattern_needs Hd).
  - exact (search_none_without _ _ _ _ contains_pattern_needs Hc).
Qed.

(** ** Script A: files it cannot touch *)

(** X1.  A file whose text holds none of [json], [.dump(] and
    [.contains(] is left alone by [fix_boost_json_file]: the call returns
    [False], writes nothing and prints nothing. *)
Theorem trigger_free_file_left_alone w filepath content :
  files w !! filepath = Some content ->
  trigger_free content ->
  fix_boost_json_file filepath w = Some (false, w).
Proof.
  intros Hf Hfree. rewrite (fix_boost_json_file_run _ _ _ Hf).
  rewrite (fix_content_no_match _ (trigger_free_no_match _ Hfree)), text_eqb_refl.
  reflexivity.
Qed.

(** ** Script A: the files after a run *)

Lemma text_eqb_true (a b : text) : text_eqb a b = true -> a = b.
Proof. unfold text_eqb. apply bool_decide_eq_true. Qed.

(** One call maps what the paths of its file read, and of no other
    file. *)
Lemma fix_boost_json_file_files filepath w b w1 :
  links_equivalence -> links_agree (files w) ->
  fix_boost_json_file filepath w = Some (b, w1) ->
  (forall p,
     files w1 !! p =
     (if same_file filepath p then fix_content else id) <$> files w !! p) /\
  links_agree (files w1).
Proof.
  intros (Hrefl & Hsym & Htrans) Hagree Hrun.
  assert (Hmap : forall p,
             files w1 !! p =
             (if same_file filepath p then fix_content else id) <$> files w !! p).
  { intros p. destruct (files w !! filepath) as [content|] eqn:Hf.
    - rewrite (fix_boost_json_file_run _ _ _ Hf) in Hrun.
      destruct (text_eqb (fix_content content) content) eqn:Hsame.
      + injection Hrun as <- <-. destruct (same_file filepath p) eqn:Hp.
        * rewrite <- (Hagree _ _ Hp), Hf. simpl.
          rewrite (text_eqb_true _ _ Hsame). reflexivity.
        * destruct (files w !! p); reflexivity.
      + destruct (can_write filepath); [|discriminate].
        injection Hrun as <- <-. simpl. rewrite lookup_write_to.
        case_bool_decide as Hq.
        * subst p. rewrite Hrefl, Hf. reflexivity.
        * destruct (same_file filepath p) eqn:Hp.
          -- rewrite <- (Hagree _ _ Hp), Hf. reflexivity.
          -- destruct (files w !! p); reflexivity.
    - unfold fix_boost_json_file, bind, read_file in Hrun. rewrite Hf in Hrun.
      discriminate. }
  split; [exact Hmap|].
  intros p q Hpq. rewrite !Hmap, (Hagree _ _ Hpq).
  assert (Hsame : same_file filepath p = same_file filepath q).
  { destruct (same_file filepath p) eqn:Hp, (same_file filepath q) eqn:Hq;
      try reflexivity.
    - rewrite (Htrans _ _ _ Hp Hpq) in Hq. discriminate.
    - rewrite Hsym in Hpq. rewrite (Htrans _ _ _ Hq Hpq) in Hp. discriminate. }
  rewrite Hsame. reflexivity.
Qed.


Lemma iter_fix_content_step n (hit : bool) (o : option (list N)) :
  Nat.iter n fix_content <$> ((if hit then fix_content else id) <$> o) =
  Nat.iter (if hit then S n else n) fix_content <$> o.
Proof.
  destruct o as [c|]; [|reflexivity]. simpl. f_equal.
  destruct hit; [|reflexivity]. symmetry. apply Nat.iter_succ_r.
Qed.

Lemma fix_all_files : forall cpp_files w n n' w',
  links_equivalence -> links_agree (files w) ->
  fix_all cpp_files n w = Some (n', w') ->
  forall p,
    files w' !! p =
    Nat.iter (times_named p cpp_files) fix_content <$> files w !! p.
Proof.
  induction cpp_files as [|f fs IH]; intros w n n' w' Heq Hagree Hrun p;
    simpl in Hrun.
  - injection Hrun as <- <-. destruct (files w !! p); reflexivity.
  - unfold bind in Hrun.
    destruct (fix_boost_json_file f w) as [[b w1]|] eqn:Hf; [|discriminate].
    destruct (fix_boost_json_file_files _ _ _ _ Heq Hagree Hf) as [Hmap Hagree1].
    rewrite (IH _ _ _ _ Heq Hagree1 Hrun p), Hmap.
    rewrite iter_fix_content_step. unfold times_named. simpl.
    destruct (same_file f p); reflexivity.
Qed.

(** X2.  Where the links form an equivalence and paths that name one file
    read the same, after a run of [main] that ends normally every path
    reads what it read before with the transform of Script A applied once
    for each listed path that names its file: a file listed under one name
    holds the transformed text, a file not listed holds what it held, and
    a path that could not be read still cannot. *)
Theorem main_files_after w u w' :
  links_equivalence -> links_agree (files w) ->
  main w = Some (u, w') ->
  forall p,
    files w' !! p =
    Nat.iter (times_named p (flat_map (glob (files w)) glob_patterns)) fix_content
      <$> files w !! p.
Proof.
  unfold main, bind, find_cpp_files. intros Heq Hagree Hrun p.
  destruct (fix_all _ 0%nat w) as [[n w1]|] eqn:Hall; [|discriminate].
  unfold print in Hrun. injection Hrun as _ <-. simpl.
  exact (fix_all_files _ _ _ _ _ Heq Hagree Hall p).
Qed.




(** X4.  When every file the glob returns is a fixed point of the
    transform (an empty list of files among the cases), [main] writes
    nothing and prints the single line [Fixed 0 files]. *)
Theorem main_on_fixed_points w :
  (forall pat p, In p (glob (files w) pat) ->
     exists content, files w !! p = Some content /\ fix_content content = content) ->
  main w = Some (tt, World (files w) (trace w ++ [EvPrint (str "Fixed 0 files")])).
Proof.
  intros Hfix. unfold main, bind, find_cpp_files.
  assert (Hall : forall l n,
             (forall p, In p l ->
                exists content, files w !! p = Some content /\
                                fix_content content = content) ->
             fix_all l n w = Some (n, w)).
  { induction l as [|f fs IH]; intros n Hl; simpl; [reflexivity|].
    destruct (Hl f (or_introl eq_refl)) as (content & Hf & Hc).
    unfold bind. rewrite (fix_boost_json_file_run _ _ _ Hf), Hc, text_eqb_refl.
    apply IH. intros p Hp. apply Hl. right. exact Hp. }
  rewrite Hall; [reflexivity|].
  intros p Hp. apply in_flat_map in Hp as (pat & _ & Hp). exact (Hfix pat p Hp).
Qed.

(** ** Script B: a file without the guard *)

(** X5.  When [src/config.cpp] can be written and does not hold the text
    [.is_object() && ], and every path that names its file reads the same
    text, Script B writes back the text it read: every path reads
    afterwards what it read before, though the write and the line still
    happen. *)
Theorem fix_config_without_guard w content :
  files w !! config_path = Some content ->
  can_write config_path = true ->
  (forall q old, same_file config_path q = true ->
                 files w !! q = Some old -> old = content) ->
  ~ occurs (str ".is_object() && ") content ->
  fix_config w =
  Some (tt, World (files w)
                  (trace w ++ [EvWrite config_path content;
                               EvPrint (str "Fixed config.cpp")])).
Proof.
  intros Hf Hw Hlinks Hno.
  assert (Hsub : config_sub content = content).
  { apply re_sub_no_match.
    exact (search_none_without _ _ _ _ config_pattern_needs Hno). }
  assert (Hsame : write_to config_path content (files w) = files w).
  { apply map_eq. intros q. rewrite lookup_write_to. case_bool_decide as Hq.
    - subst q. symmetry. exact Hf.
    - destruct (files w !! q) as [old|] eqn:Hold; [|reflexivity]. simpl.
      destruct (same_file config_path q) eqn:Hs; [|reflexivity].
      rewrite (Hlinks q old Hs Hold). reflexivity. }
  unfold fix_config, bind, read_file, write_file, print. rewrite Hf. cbv zeta.
  rewrite Hsub, Hw. simpl. rewrite Hsame, <- app_assoc. reflexivity.
Qed.

(** ** Running a literal rule twice

    A rule with the pattern [\b] and a literal [l], replaced by the literal
    [m].  No tail of [l] but [l] itself can run into [m], [l] can start
    nowhere in [m], and both end alike (in a word character or not).
    Under these conditions the rule, applied to its own output, changes
    nothing. *)

Lemma clash_no_prefix : forall u v z, clash u v = true -> text_prefix u (v ++ z) = None.
Proof.
  induction u as [|x u IH]; intros v z H; destruct v as [|y v]; simpl in *;
    try discriminate.
  destruct (x =? y); [apply IH, H|reflexivity].
Qed.

Section LiteralRule.

Variable c0 : N.
Variables l m : list N.
Hypothesis tails_of_l : tails_clash l m = true.
Hypothesis l_in_m : clash_tails (c0 :: l) m = true.
Hypothesis same_end :
  forall x y, head_is_word (rev (c0 :: l) ++ x) = head_is_word (rev m ++ y).

Let r : regex := cat [WordB; lits (c0 :: l)].
Let t : list titem := tlits m.

Lemma at_boundary_heads bef aft g :
  at_boundary (MState bef aft g) =
  negb (Bool.eqb (head_is_word aft) (head_is_word bef)).
Proof. reflexivity. Qed.

(** One step of the scan. *)
Lemma literal_scan_nil bef : sub_loop r t bef [] 0 = [].
Proof.
  simpl. unfold r. rewrite match_at_word_literal.
  destruct (at_boundary _); reflexivity.
Qed.

Lemma literal_scan_cons bef c aft :
  sub_loop r t bef (c :: aft) 0 =
  if at_boundary (MState bef (c :: aft) []) then
    match text_prefix (c0 :: l) (c :: aft) with
    | Some rest => m ++ sub_loop r t (rev (c0 :: l) ++ bef) rest 0
    | None => c :: sub_loop r t (c :: bef) aft 0
    end
  else c :: sub_loop r t (c :: bef) aft 0.
Proof.
  cbn [sub_loop]. unfold r at 1. rewrite match_at_word_literal.
  destruct (at_boundary _); [|reflexivity].
  destruct (text_prefix (c0 :: l) (c :: aft)) as [rest|] eqn:Hp; [|reflexivity].
  cbn [andb]. apply text_prefix_Some in Hp. injection Hp as -> ->.
  unfold match_len. cbn [after].
  replace (length (c0 :: l ++ rest) - length rest)%nat with (S (length l))
    by (simpl; rewrite length_app; lia).
  unfold t at 1. rewrite expand_tlits, sub_loop_skip.
  simpl. rewrite <- app_assoc. reflexivity.
Qed.

(** The replacement is copied by a second scan. *)
Lemma literal_scan_copies : forall x y bef,
  clash_tails (c0 :: l) x = true ->
  sub_loop r t bef (x ++ y) 0 = x ++ sub_loop r t (rev x ++ bef) y 0.
Proof.
  induction x as [|c x IH]; intros y bef Hx; [reflexivity|].
  cbn [clash_tails] in Hx. apply andb_prop in Hx as [Hc Hx].
  change ((c :: x) ++ y) with (c :: x ++ y). rewrite literal_scan_cons.
  change (c :: x ++ y) with ((c :: x) ++ y). rewrite (clash_no_prefix _ _ y Hc).
  rewrite (IH _ _ Hx). simpl. rewrite <- app_assoc.
  destruct (at_boundary _); reflexivity.
Qed.

(** A text that is not ahead in the input is not ahead in the output. *)
Lemma literal_scan_no_new_prefix : forall aft u bef,
  tails_clash u m = true ->
  text_prefix u aft = None -> text_prefix u (sub_loop r t bef aft 0) = None.
Proof.
  induction aft as [|c aft IH]; intros u bef Hu H.
  - rewrite literal_scan_nil. exact H.
  - destruct u as [|d u]; [discriminate|].
    cbn [tails_clash] in Hu. apply andb_prop in Hu as [Hd Hu].
    assert (Hcopy : text_prefix (d :: u) (c :: sub_loop r t (c :: bef) aft 0) = None).
    { simpl in *. destruct (d =? c); [apply IH; assumption|reflexivity]. }
    rewrite literal_scan_cons. destruct (at_boundary _); [|exact Hcopy].
    destruct (text_prefix (c0 :: l) (c :: aft)); [|exact Hcopy].
    apply clash_no_prefix, Hd.
Qed.

Lemma literal_scan_no_new_match bef c aft :
  text_prefix (c0 :: l) (c :: aft) = None ->
  text_prefix (c0 :: l) (c :: sub_loop r t (c :: bef) aft 0) = None.
Proof.
  cbn [text_prefix]. destruct (c0 =? c); [|reflexivity].
  apply literal_scan_no_new_prefix, tails_of_l.
Qed.

Lemma literal_scan_stable : forall n aft,
  (length aft <= n)%nat ->
  forall bef bef',
    head_is_word bef = head_is_word bef' ->
    sub_loop r t bef' (sub_loop r t bef aft 0) 0 = sub_loop r t bef aft 0.
Proof.
  induction n as [|n IH]; intros aft Hlen bef bef' Hh.
  - destruct aft; [|simpl in Hlen; lia]. rewrite !literal_scan_nil. reflexivity.
  - destruct aft as [|c aft]; [rewrite !literal_scan_nil; reflexivity|].
    simpl in Hlen.
    assert (Hnext : sub_loop r t (c :: bef') (sub_loop r t (c :: bef) aft 0) 0 =
                    sub_loop r t (c :: bef) aft 0).
    { apply IH; [lia|reflexivity]. }
    rewrite (literal_scan_cons bef).
    rewrite (at_boundary_heads bef), Hh, <- (at_boundary_heads bef' (c :: aft) []).
    destruct (at_boundary (MState bef' (c :: aft) [])) eqn:Hb.
    + destruct (text_prefix (c0 :: l) (c :: aft)) as [rest|] eqn:Hp.
      * apply text_prefix_Some in Hp. injection Hp as -> ->.
        rewrite literal_scan_copies by exact l_in_m. f_equal.
        apply IH; [rewrite length_app in Hlen; lia|apply same_end].
      * rewrite literal_scan_cons.
        rewrite at_boundary_heads. cbn [head_is_word].
        rewrite at_boundary_heads in Hb. cbn [head_is_word] in Hb. rewrite Hb.
        rewrite (literal_scan_no_new_match bef c aft Hp), Hnext. reflexivity.
    + rewrite literal_scan_cons.
      rewrite at_boundary_heads. cbn [head_is_word].
      rewrite at_boundary_heads in Hb. cbn [head_is_word] in Hb. rewrite Hb.
      rewrite Hnext. reflexivity.
Qed.

Lemma literal_rule_idempotent s :
  re_sub r t (re_sub r t s) = re_sub r t s.
Proof.
  unfold re_sub. apply (literal_scan_stable (length s)); [lia|reflexivity].
Qed.

End LiteralRule.

(** X6.  The second array rule (line 20) is idempotent: for every text,
    applying it to its own output changes nothing. *)
Theorem rule2b_idempotent s : rule2b (rule2b s) = rule2b s.
Proof.
  apply (literal_rule_idempotent (ch "b") (str "oost::json::value::array()")
           (str "boost::json::array()")).
  - reflexivity.
  - reflexivity.
  - intros x y. reflexivity.
Qed.

(** X7.  The second object rule (line 24) is idempotent: for every text,
    applying it to its own output changes nothing. *)
Theorem rule3b_idempotent s : rule3b (rule3b s) = rule3b s.
Proof.
  apply (literal_rule_idempotent (ch "b") (str "oost::json::value::object()")
           (str "boost::json::object()")).
  - reflexivity.
  - reflexivity.
  - intros x y. reflexivity.
Qed.

(** ** Running a prefixing rule twice

    A rule with the pattern [\b] and a literal [c0 :: l] that starts with a
    word character, replaced by the same literal behind a non-empty prefix
    [x] that ends in a non-word character.  Each match makes the text
    longer, and the replacement holds a match again. *)

Lemma matches_lits_intro u : forall bef z g,
  matches (lits u) (MState bef (u ++ z) g) (MState (rev u ++ bef) z g).
Proof.
  induction u as [|c u IH]; intros bef z g; simpl; [constructor|].
  econstructor; [constructor|].
  rewrite <- app_assoc. apply IH.
Qed.

Section PrefixingRule.

Variable c0 : N.
Variables l x : list N.
Hypothesis x_not_empty : x <> [].
Hypothesis x_ends_non_word : forall y, head_is_word (rev x ++ y) = false.
Hypothesis c0_is_word : is_word c0 = true.

Let r : regex := cat [WordB; lits (c0 :: l)].
Let t : list titem := tlits (x ++ c0 :: l).

Lemma prefixing_search_cons bef c aft :
  search r bef (c :: aft) =
  if at_boundary (MState bef (c :: aft) []) then
    match text_prefix (c0 :: l) (c :: aft) with
    | Some rest => Some (MState (rev (c0 :: l) ++ bef) rest [])
    | None => search r (c :: bef) aft
    end
  else search r (c :: bef) aft.
Proof.
  cbn [search]. unfold r at 1. rewrite match_at_word_literal.
  destruct (at_boundary _); [|reflexivity].
  destruct (text_prefix _ _); reflexivity.
Qed.

Lemma prefixing_search_nil bef : search r bef [] = None.
Proof.
  cbn [search]. unfold r. rewrite match_at_word_literal.
  destruct (at_boundary _); reflexivity.
Qed.

Lemma prefixing_scan_grows : forall n aft,
  (length aft <= n)%nat ->
  forall bef,
    (length aft <= length (sub_loop r t bef aft 0))%nat /\
    (search r bef aft <> None ->
     (length aft < length (sub_loop r t bef aft 0))%nat).
Proof.
  assert (Hx : (0 < length x)%nat) by (destruct x; [congruence|simpl; lia]).
  induction n as [|n IH]; intros aft Hlen bef.
  - destruct aft; [|simpl in Hlen; lia].
    rewrite prefixing_search_nil. split; [simpl; lia|congruence].
  - destruct aft as [|c aft].
    { rewrite prefixing_search_nil. split; [simpl; lia|congruence]. }
    simpl in Hlen. unfold r, t. rewrite literal_scan_cons. fold r t.
    rewrite prefixing_search_cons.
    destruct (IH aft ltac:(lia) (c :: bef)) as [Hge Hgt].
    destruct (at_boundary _); [|simpl; split; [lia|intros H; apply Hgt in H; lia]].
    destruct (text_prefix (c0 :: l) (c :: aft)) as [rest|] eqn:Hp;
      [|simpl; split; [lia|intros H; apply Hgt in H; lia]].
    apply text_prefix_Some in Hp. rewrite Hp.
    destruct (IH rest) with (bef := rev (c0 :: l) ++ bef) as [Hr _].
    { assert (Hl : length (c :: aft) = length ((c0 :: l) ++ rest)) by (rewrite Hp; reflexivity).
      rewrite length_app in Hl. simpl in Hl. lia. }
    rewrite !length_app. cbn [length]. split; [lia|intros _; lia].
Qed.

Lemma prefixing_scan_replaces : forall aft bef,
  search r bef aft <> None ->
  exists pre z, sub_loop r t bef aft 0 = pre ++ (x ++ c0 :: l) ++ z.
Proof.
  induction aft as [|c aft IH]; intros bef H.
  - rewrite prefixing_search_nil in H. congruence.
  - rewrite prefixing_search_cons in H. unfold r, t. rewrite literal_scan_cons. fold r t.
    assert (Hcopy : search r (c :: bef) aft <> None ->
                    exists pre z, c :: sub_loop r t (c :: bef) aft 0 =
                                  pre ++ (x ++ c0 :: l) ++ z).
    { intros H'. destruct (IH _ H') as (pre & z & ->). exists (c :: pre), z. reflexivity. }
    destruct (at_boundary _); [|exact (Hcopy H)].
    destruct (text_prefix (c0 :: l) (c :: aft)) as [rest|]; [|exact (Hcopy H)].
    exists [], (sub_loop r t (rev (c0 :: l) ++ bef) rest 0). reflexivity.
Qed.

Lemma prefixing_replacement_matches pre z bef :
  search r bef (pre ++ (x ++ c0 :: l) ++ z) <> None.
Proof.
  intros Hnone.
  apply (search_none_elim _ _ _ Hnone (pre ++ x) ((c0 :: l) ++ z)
           (MState (rev (c0 :: l) ++ rev (pre ++ x) ++ bef) z [])).
  - rewrite <- !app_assoc. reflexivity.
  - unfold r, cat. cbn [fold_right].
    econstructor; [constructor|econstructor; [apply matches_lits_intro|constructor]].
    rewrite at_boundary_heads. change (head_is_word ((c0 :: l) ++ z)) with (is_word c0).
    rewrite c0_is_word, rev_app_distr, <- app_assoc, x_ends_non_word. reflexivity.
Qed.

Lemma prefixing_rule_changes s :
  search r [] s <> None -> re_sub r t s <> s.
Proof.
  intros H Heq. destruct (prefixing_scan_grows (length s) s ltac:(lia) []) as [_ Hgt].
  apply Hgt in H. unfold re_sub in Heq. rewrite Heq in H. lia.
Qed.

Lemma prefixing_rule_second_run s :
  (re_sub r t (re_sub r t s) = re_sub r t s <-> search r [] s = None) /\
  (re_sub r t s = s <-> search r [] s = None).
Proof.
  assert (Hdec : search r [] s = None \/ search r [] s <> None)
    by (destruct (search r [] s); [right; discriminate|left; reflexivity]).
  split; split.
  - intros Hidem. destruct Hdec as [Hn|Hs]; [exact Hn|]. exfalso.
    destruct (prefixing_scan_replaces _ _ Hs) as (pre & z & Hout).
    apply (prefixing_rule_changes (re_sub r t s)); [|exact Hidem].
    unfold re_sub at 1. rewrite Hout. apply prefixing_replacement_matches.
  - intros Hn. rewrite (re_sub_no_match _ _ _ Hn). apply re_sub_no_match, Hn.
  - intros Hsame. destruct Hdec as [Hn|Hs]; [exact Hn|].
    exfalso. exact (prefixing_rule_changes s Hs Hsame).
  - apply re_sub_no_match.
Qed.

End PrefixingRule.

(** X8.  The first array rule (line 19) is idempotent on a text exactly
    when its pattern matches nowhere in the text, which is exactly when it
    leaves the text unchanged: wherever it rewrites something, a second
    application rewrites again. *)
Theorem rule2a_second_run s :
  (rule2a (rule2a s) = rule2a s <-> search array_pattern [] s = None) /\
  (rule2a s = s <-> search array_pattern [] s = None).
Proof.
  apply (prefixing_rule_second_run (ch "j") (str "son::array()") (str "boost::")).
  - discriminate.
  - intros y. reflexivity.
  - reflexivity.
Qed.

(** X9.  The first object rule (line 23) behaves the same way: it is
    idempotent on a text exactly when its pattern matches nowhere in the
    text, which is exactly when it leaves the text unchanged. *)
Theorem rule3a_second_run s :
  (rule3a (rule3a s) = rule3a s <-> search object_pattern [] s = None) /\
  (rule3a s = s <-> search object_pattern [] s = None).
Proof.
  apply (prefixing_rule_second_run (ch "j") (str "son::object()") (str "boost::")).
  - discriminate.
  - intros y. reflexivity.
  - reflexivity.
Qed.

(** ** Script A, rule 1 on a declaration *)

(** A repetition whose deeper tries succeed returns what they return. *)
Lemma star_prefers_longer p : forall u y bef g k res,
  forallb p u = true ->
  star p (rev u ++ bef) y g k = Some res ->
  star p bef (u ++ y) g k = Some res.
Proof.
  induction u as [|c u IH]; intros y bef g k res Hu H; simpl in *; [exact H|].
  apply andb_prop in Hu as [Hc Hu]. rewrite Hc.
  rewrite (IH y (c :: bef) g k res Hu); [reflexivity|].
  rewrite <- app_assoc in H. exact H.
Qed.

(** A repetition gives back every character that the rest of the pattern
    refuses. *)
Lemma star_falls_back p g k : forall x rest bef,
  forallb p x = true -> stops p rest ->
  (forall x1 x2, x = x1 ++ x2 -> x1 <> [] ->
                 k (MState (rev x1 ++ bef) (x2 ++ rest) g) = None) ->
  star p bef (x ++ rest) g k = k (MState bef (x ++ rest) g).
Proof.
  induction x as [|c x IH]; intros rest bef Hx Hstop Hfail; simpl in *.
  - destruct rest as [|c rest]; [reflexivity|]. simpl in *. rewrite Hstop.
    reflexivity.
  - apply andb_prop in Hx as [Hc Hx]. rewrite Hc.
    rewrite (IH rest (c :: bef) Hx Hstop).
    + pose proof (Hfail [c] x eq_refl ltac:(discriminate)) as Hone.
      simpl in Hone. rewrite Hone. reflexivity.
    + intros x1 x2 -> Hne. specialize (Hfail (c :: x1) x2 eq_refl).
      simpl in Hfail. rewrite <- app_assoc in Hfail. apply Hfail. discriminate.
Qed.

Lemma rmatch_wordb st k : at_boundary st = true -> rmatch WordB st k = k st.
Proof. intros H. simpl. rewrite H. reflexivity. Qed.

Lemma rmatch_plus_longest cl u rest bef g k res :
  u <> [] -> forallb (in_class cl) u = true -> stops (in_class cl) rest ->
  k (MState (rev u ++ bef) rest g) = Some res ->
  rmatch (Plus cl) (MState bef (u ++ rest) g) k = Some res.
Proof. intros. simpl. apply plus_longest; assumption. Qed.

Lemma rmatch_group_star n cl u rest bef g k res :
  forallb (in_class cl) u = true -> stops (in_class cl) rest ->
  k (MState (rev u ++ bef) rest ((n, u) :: g)) = Some res ->
  rmatch (Group n (Star cl)) (MState bef (u ++ rest) g) k = Some res.
Proof.
  intros Hu Hstop Hk. simpl.
  apply star_longest; [assumption|assumption|].
  unfold span. simpl. rewrite span_app. exact Hk.
Qed.

Lemma rmatch_star cl bef aft g k :
  rmatch (Star cl) (MState bef aft g) k = star (in_class cl) bef aft g k.
Proof. reflexivity. Qed.

Lemma rmatch_lit_refuses c h bef aft g k :
  h <> c -> rmatch (Lit c) (MState bef (h :: aft) g) k = None.
Proof. intros H. simpl. apply N.eqb_neq in H. rewrite H. reflexivity. Qed.

(** The scan at a match that is a prefix of what is left. *)
Lemma sub_loop_at_match r t u rest bef bef' g :
  u <> [] ->
  match_at r bef (u ++ rest) false = Some (MState bef' rest g) ->
  sub_loop r t bef (u ++ rest) 0 = expand t g ++ sub_loop r t (rev u ++ bef) rest 0.
Proof.
  intros Hu Hm. destruct u as [|c u]; [congruence|].
  simpl app in *. cbn [sub_loop]. rewrite Hm. unfold match_len. cbn [after groups].
  replace (length (c :: u ++ rest) - length rest)%nat with (S (length u))
    by (simpl; rewrite length_app; lia).
  rewrite sub_loop_skip. simpl. rewrite <- app_assoc. reflexivity.
Qed.

Lemma rule1_refuses_other_letters bef c aft :
  c <> ch "j" -> match_at rule1_pattern bef (c :: aft) false = None.
Proof.
  intros Hc. unfold match_at, rule1_pattern, cat. cbn [fold_right].
  rewrite rmatch_seq. cbn [rmatch]. destruct (at_boundary _); [|reflexivity].
  change (lits (str "json")) with (Seq (Lit (ch "j")) (lits (str "son"))).
  rewrite !rmatch_seq. apply rmatch_lit_refuses, Hc.
Qed.

Lemma rule1_copies_prefix : forall pre y bef,
  lacks (ch "j") pre ->
  sub_loop rule1_pattern rule1_template bef (pre ++ y) 0 =
  pre ++ sub_loop rule1_pattern rule1_template (rev pre ++ bef) y 0.
Proof.
  induction pre as [|c pre IH]; intros y bef Hj; [reflexivity|].
  simpl app. cbn [sub_loop]. rewrite rule1_refuses_other_letters.
  - rewrite IH by (intros Hin; apply Hj; right; exact Hin).
    rewrite <- app_assoc. reflexivity.
  - intros ->. apply Hj. left. reflexivity.
Qed.

Lemma word_run_head v (y : text) :
  identifier v -> exists h tl, v ++ y = h :: tl /\ is_word h = true.
Proof.
  intros [Hne Hw]. destruct v as [|h v]; [congruence|].
  simpl in Hw. apply andb_prop in Hw as [Hh _]. exists h, (v ++ y). auto.
Qed.

Lemma rule1_match_at bef v ws0 ws1 ws2 rest :
  (forall c, is_word c = true -> is_space c = false) ->
  head_is_word bef = false ->
  identifier v ->
  ws0 <> [] -> forallb is_space ws0 = true ->
  forallb is_space ws1 = true ->
  forallb is_space ws2 = true -> lacks nl ws2 ->
  exists bef',
    match_at rule1_pattern bef
      ((str "json" ++ ws0 ++ v ++ str ";" ++ ws1 ++ [nl] ++ ws2 ++ v ++
        str "[" ++ [dq]) ++ rest) false =
    Some (MState bef' rest [(2%nat, ws2); (1%nat, v)]).
Proof.
  intros Hdb Hbef Hv Hne0 Hs0 Hs1 Hs2 Hnl. eexists.
  destruct (word_run_head v (str "[" ++ [dq] ++ rest) Hv) as (h2 & tl2 & Hv2 & Hh2).
  assert (Hstop : forall y, stops is_space (v ++ y)).
  { intros y. destruct (word_run_head v y Hv) as (h & tl & -> & Hh).
    simpl. apply Hdb, Hh. }
  unfold match_at, rule1_pattern, cat. cbn [fold_right].
  rewrite <- !app_assoc.
  rewrite rmatch_seq, rmatch_wordb
    by (rewrite at_boundary_heads, Hbef; reflexivity).
  rewrite rmatch_seq, rmatch_lits, rmatch_seq.
  apply rmatch_plus_longest; [exact Hne0|exact Hs0|apply Hstop|].
  rewrite rmatch_seq.
  apply rmatch_group_plus; [apply Hv|apply Hv|reflexivity|].
  change (str ";" ++ ?y) with (ch ";" :: y).
  rewrite rmatch_seq, rmatch_lit, rmatch_seq, rmatch_star.
  apply star_prefers_longer; [exact Hs1|].
  change ([nl] ++ ws2 ++ v ++ str "[" ++ [dq] ++ rest)
    with ((nl :: ws2) ++ v ++ str "[" ++ [dq] ++ rest).
  rewrite star_falls_back.
  - cbn [app]. rewrite rmatch_seq, rmatch_lit, rmatch_seq.
    apply rmatch_group_star; [exact Hs2|apply Hstop|].
    rewrite rmatch_seq, rmatch_backref by reflexivity.
    change (str "[" ++ dq :: rest) with (ch "[" :: dq :: rest).
    rewrite rmatch_seq, rmatch_lit, rmatch_seq, rmatch_lit, rmatch_eps.
    cbn [andb]. reflexivity.
  - apply andb_true_intro. split; [reflexivity|exact Hs2].
  - apply Hstop.
  - intros x1 x2 E Hx1. destruct x1 as [|c x1]; [congruence|].
    injection E as <- ->. rewrite rmatch_seq.
    destruct x2 as [|h x2].
    + rewrite app_nil_l, Hv2.
      apply rmatch_lit_refuses. intros ->. vm_compute in Hh2. discriminate.
    + rewrite <- app_comm_cons. apply rmatch_lit_refuses. intros ->.
      apply Hnl, in_or_app. right. left. reflexivity.
Qed.

(** X10.  Rule 1 on a declaration in context.  The text is a prefix
    without the letter [j] that does not end in a word character, the
    declaration [json], white space, an identifier [v] and a semicolon,
    then white space with a line feed, the indentation [ws2] and an
    indexed use of [v], and a rest without [json].  Rule 1 rewrites the
    declaration to [boost::json::object v;], puts one line feed after it,
    keeps the indentation and the use, and keeps prefix and rest: the white
    space between the semicolon and the last line feed is dropped.  The
    Unicode database is taken to class no word character as white space. *)
Theorem rule1_rewrites_declaration pre v ws0 ws1 ws2 rest :
  (forall c, is_word c = true -> is_space c = false) ->
  lacks (ch "j") pre -> head_is_word (rev pre) = false ->
  identifier v ->
  ws0 <> [] -> forallb is_space ws0 = true ->
  forallb is_space ws1 = true ->
  forallb is_space ws2 = true -> lacks nl ws2 ->
  ~ occurs (str "json") rest ->
  rule1 (pre ++ (str "json" ++ ws0 ++ v ++ str ";" ++ ws1 ++ [nl] ++ ws2 ++ v ++
                 str "[" ++ [dq]) ++ rest) =
  pre ++ (str "boost::json::object " ++ v ++ str ";" ++ [nl] ++ ws2 ++ v ++
          str "[" ++ [dq]) ++ rest.
Proof.
  intros Hdb Hj Hpre Hv Hne0 Hs0 Hs1 Hs2 Hnl Hrest.
  unfold rule1, re_sub. rewrite rule1_copies_prefix by exact Hj. f_equal.
  rewrite app_nil_r.
  destruct (rule1_match_at (rev pre) v ws0 ws1 ws2 rest Hdb Hpre Hv Hne0 Hs0 Hs1 Hs2 Hnl)
    as [bef' Hm].
  assert (Hne : str "json" ++ ws0 ++ v ++ str ";" ++ ws1 ++ [nl] ++ ws2 ++ v ++
                str "[" ++ [dq] <> []).
  { change (str "json") with (ch "j" :: str "son"). discriminate. }
  rewrite (sub_loop_at_match _ rule1_template _ _ _ _ _ Hne Hm).
  rewrite sub_loop_no_match
    by exact (search_none_without _ _ _ _ rule1_pattern_needs Hrest).
  unfold rule1_template.
  rewrite !expand_app, !expand_tlits. cbn [expand flat_map group_lookup Nat.eqb].
  rewrite <- !app_assoc. reflexivity.
Qed.

(** ** Script B on a guarded check of two variables *)

Lemma match_at_none_intro r bef aft :
  (forall st, ~ matches r (MState bef aft []) st) ->
  match_at r bef aft false = None.
Proof.
  intros H. destruct (match_at r bef aft false) as [st|] eqn:Hm; [|reflexivity].
  exfalso. exact (H st (match_at_sound _ _ _ _ Hm)).
Qed.

(** The scan copies a stretch in which no match starts. *)
Lemma sub_loop_copies_unmatched r t : forall pre y bef,
  (forall p1 p2, pre = p1 ++ p2 -> p2 <> [] ->
                 match_at r (rev p1 ++ bef) (p2 ++ y) false = None) ->
  sub_loop r t bef (pre ++ y) 0 = pre ++ sub_loop r t (rev pre ++ bef) y 0.
Proof.
  induction pre as [|c pre IH]; intros y bef H; [reflexivity|].
  pose proof (H [] (c :: pre) eq_refl ltac:(discriminate)) as Hhere.
  simpl in Hhere. simpl app. cbn [sub_loop]. rewrite Hhere.
  rewrite IH.
  - rewrite <- app_assoc. reflexivity.
  - intros p1 p2 -> Hp2. specialize (H (c :: p1) p2 eq_refl Hp2).
    simpl in H. rewrite <- app_assoc in H. exact H.
Qed.

(** A match in the guarded check of [a] and [b] starts where [b] starts
    as a suffix of [a]. *)
Lemma config_match_position a b k p q bef g st :
  identifier a -> identifier b -> lacks dq k ->
  guarded_call a b k = p ++ q ->
  matches config_pattern (MState bef q g) st ->
  a = p ++ b.
Proof.
  intros [_ Ha] [_ Hb] Hq E Hm.
  apply config_pattern_shape in Hm as (w & key & rest & -> & Hw & Hk & Hkey).
  unfold guarded_call in E.
  assert (E' : (a ++ str ".is_object() && " ++ b ++ str ".as_object().contains(") ++
               dq :: (k ++ dq :: str ")") =
               (p ++ w ++ str ".is_object() && " ++ w ++ str ".as_object().contains(") ++
               dq :: (key ++ dq :: str ")" ++ rest)).
  { rewrite <- !app_assoc. exact E. }
  apply split_first in E' as [[E' _]|(m & _ & E')].
  - assert (E2 : (a ++ str ".is_object() &&") ++ ch " " :: b =
                 (p ++ w ++ str ".is_object() &&") ++ ch " " :: w).
    { apply (app_inv_tail (str ".as_object().contains(")).
      rewrite <- !app_assoc. exact E'. }
    apply split_last in E2 as [E2 <-].
    + apply (app_inv_tail (str ".is_object() &&")).
      rewrite <- !app_assoc. exact E2.
    + apply (class_lacks is_word); [exact Hb|reflexivity].
    + apply (class_lacks is_word); [exact Hw|reflexivity].
  - exfalso. apply split_once in E' as [_ E']; [|exact Hq|not_in_literal].
    assert (Hin : In dq (str ")")).
    { rewrite E'. apply in_or_app. right. left. reflexivity. }
    revert Hin. not_in_literal.
  - intros Hin.
    repeat (apply in_app_or in Hin as [Hin|Hin]);
      try (revert Hin; apply (class_lacks is_word); [assumption|reflexivity]);
      revert Hin; not_in_literal.
Qed.

Lemma config_match_at_from bef v k :
  identifier v -> k <> [] -> lacks dq k ->
  exists bef',
    match_at config_pattern bef (guarded_call v v k ++ []) false =
    Some (MState bef' [] [(2%nat, k); (1%nat, v)]).
Proof.
  intros [Hv Hw] Hk Hq. eexists. rewrite app_nil_r.
  unfold match_at, config_pattern, guarded_call, cat. cbn [fold_right app].
  rewrite rmatch_seq.
  apply rmatch_group_plus; [exact Hv|exact Hw|reflexivity|].
  rewrite rmatch_seq, rmatch_lits, rmatch_seq, rmatch_backref by reflexivity.
  rewrite rmatch_seq, rmatch_lits, rmatch_seq, rmatch_lit, rmatch_seq.
  apply rmatch_group_plus; [exact Hk|apply lacks_forallb, Hq|reflexivity|].
  rewrite rmatch_seq, rmatch_lit, rmatch_seq.
  change (str ")") with [ch ")"]. rewrite rmatch_lit, rmatch_eps.
  cbn [andb]. reflexivity.
Qed.

(** X11.  Script B on a guarded check whose conjuncts name the
    identifiers [a] and [b], with a non-empty key without a double quote.
    When [b] is a suffix of [a] (the two being equal among the cases), the
    check is collapsed to the containment call on [a]; otherwise the text
    is left as it is. *)
Theorem config_sub_on_two_variables a b k :
  identifier a -> identifier b -> k <> [] -> lacks dq k ->
  (suffix b a -> config_sub (guarded_call a b k) = contains_call a k) /\
  (~ suffix b a -> config_sub (guarded_call a b k) = guarded_call a b k).
Proof.
  intros Ha Hb Hk Hq. split.
  - intros [p ->].
    assert (Hsplit : guarded_call (p ++ b) b k = p ++ guarded_call b b k ++ []).
    { unfold guarded_call. rewrite app_nil_r, <- !app_assoc. reflexivity. }
    unfold config_sub, re_sub. rewrite Hsplit.
    rewrite sub_loop_copies_unmatched.
    + destruct (config_match_at_from (rev p ++ []) b k Hb Hk Hq) as [bef' Hm].
      assert (Hne : guarded_call b b k <> [])
        by (unfold guarded_call; apply identifier_app_nonempty, Hb).
      rewrite (sub_loop_at_match config_pattern config_template
                 (guarded_call b b k) [] _ _ _ Hne Hm).
      cbn [sub_loop]. rewrite config_no_match_at_end.
      unfold config_template, contains_call.
      rewrite !expand_app, !expand_tlits. cbn [expand flat_map group_lookup Nat.eqb].
      rewrite !app_nil_r, <- !app_assoc. reflexivity.
    + intros p1 p2 -> Hp2. apply match_at_none_intro. intros st Hm.
      assert (E : guarded_call ((p1 ++ p2) ++ b) b k =
                  p1 ++ p2 ++ guarded_call b b k ++ []).
      { rewrite Hsplit, <- app_assoc. reflexivity. }
      pose proof (config_match_position _ _ _ _ _ _ _ _ Ha Hb Hq E Hm) as Hpos.
      rewrite <- app_assoc in Hpos. apply app_inv_head in Hpos.
      apply (f_equal (@length N)) in Hpos. rewrite length_app in Hpos.
      destruct p2; [congruence|simpl in Hpos; lia].
  - intros Hsuf. apply config_sub_other_variable; assumption.
Qed.

(** ** Rules 4 and 5 on their own output *)

Lemma occurs_head c l s : occurs (c :: l) s -> In c s.
Proof.
  intros (p & q & ->). apply in_or_app. right. left. reflexivity.
Qed.

(** X12.  Rule 4 leaves its own output on a serialization call alone:
    for every identifier [v] and decimal integer literal [n], a second
    application to the rewritten call changes nothing. *)
Theorem rule4_twice_on_dump v n :
  identifier v -> decimal_literal n ->
  rule4 (rule4 (dump_call v n)) = rule4 (dump_call v n).
Proof.
  intros Hv Hn.
  assert (Hout : rule4 (dump_call v n) = serialize_call v).
  { destruct (dump_match_at v n Hv Hn) as [bef' Hm].
    unfold rule4, dump_call in *.
    rewrite (re_sub_whole _ dump_template _ _ _
               (identifier_app_nonempty _ _ Hv) Hm dump_no_match_at_end).
    unfold dump_template, serialize_call.
    rewrite !expand_app, !expand_tlits. cbn [expand flat_map group_lookup Nat.eqb].
    rewrite !app_nil_r. reflexivity. }
  rewrite Hout. apply re_sub_no_match.
  apply (search_none_without (str ".dump(") _ _ _ dump_pattern_needs).
  intros Hocc. apply occurs_head in Hocc. unfold serialize_call in Hocc.
  apply in_app_or in Hocc as [Hin|Hin]; [revert Hin; not_in_literal|].
  apply in_app_or in Hin as [Hin|Hin]; [|revert Hin; not_in_literal].
  revert Hin. apply (class_lacks is_word); [apply Hv|reflexivity].
Qed.

Lemma contains_pattern_shape_word bef aft g st' :
  matches contains_pattern (MState bef aft g) st' ->
  exists w1 c key rest,
    aft = (w1 ++ [c]) ++ str ".contains(" ++ [dq] ++ key ++ [dq] ++ str ")" ++ rest /\
    is_word c = true /\ key <> [].
Proof.
  intros H. expose_pattern contains_pattern H. invert_matches.
  match goal with
  | Hne : ?u <> [], Hw : forallb (in_class Word) ?u = true |- _ =>
      destruct (exists_last Hne) as (w1 & c & ->);
      rewrite forallb_app in Hw; apply andb_prop in Hw as [_ Hw];
      simpl in Hw; rewrite andb_true_r in Hw;
      exists w1, c
  end.
  eexists _, _. split; [reflexivity|]. auto.
Qed.

Lemma contains_no_match_guarded v k :
  identifier v -> lacks dq k ->
  search contains_pattern [] (guarded_call v v k) = None.
Proof.
  intros [_ Hw] Hq. apply search_none_intro. intros p q st E Hm.
  apply contains_pattern_shape_word in Hm as (w1 & c & key & rest & -> & Hc & Hk).
  unfold guarded_call in E.
  assert (E' : (v ++ str ".is_object() && " ++ v ++ str ".as_object().contains(") ++
               dq :: (k ++ dq :: str ")") =
               (p ++ (w1 ++ [c]) ++ str ".contains(") ++
               dq :: (key ++ dq :: str ")" ++ rest)).
  { rewrite <- !app_assoc. rewrite <- !app_assoc in E. exact E. }
  apply split_first in E' as [[E' _]|(m & _ & E')].
  - assert (E2 : (v ++ str ".is_object() && " ++ v ++ str ".as_object(") ++ [ch ")"] =
                 (p ++ w1) ++ [c]).
    { apply (app_inv_tail (str ".contains(")).
      rewrite <- !app_assoc. rewrite <- !app_assoc in E'. exact E'. }
    apply app_inj_tail in E2 as [_ <-]. vm_compute in Hc. discriminate.
  - apply split_once in E' as [_ E']; [|exact Hq|not_in_literal].
    assert (Hin : In dq (str ")")).
    { rewrite E'. apply in_or_app. right. left. reflexivity. }
    revert Hin. not_in_literal.
  - intros Hin.
    repeat (apply in_app_or in Hin as [Hin|Hin]);
      try (revert Hin; apply (class_lacks is_word); [assumption|reflexivity]);
      revert Hin; not_in_literal.
Qed.

(** X13.  Rule 5 leaves its own output on a containment call alone: for
    every identifier [v] and every key [k] without a double quote, a
    second application to what the first made of the call changes
    nothing. *)
Theorem rule5_twice_on_call v k :
  identifier v -> lacks dq k ->
  rule5 (rule5 (contains_call v k)) = rule5 (contains_call v k).
Proof.
  intros Hv Hq. destruct k as [|c k].
  - unfold rule5. rewrite (re_sub_no_match _ _ _ (contains_no_match_empty_key v Hv)).
    apply re_sub_no_match, contains_no_match_empty_key, Hv.
  - rewrite rule5_on_call by (assumption || discriminate).
    apply re_sub_no_match, contains_no_match_guarded; assumption.
Qed.

(** ** Script A, rule 4 on other arguments *)

Lemma split_first_both (c : N) (l r l' r' : list N) :
  ~ In c l -> ~ In c l' ->
  l ++ c :: r = l' ++ c :: r' -> l = l' /\ r = r'.
Proof.
  intros Hl Hl' E. apply split_first in E as [E|(m & -> & _)]; [exact E| |exact Hl].
  exfalso. apply Hl', in_or_app. right. left. reflexivity.
Qed.

Lemma dump_pattern_shape_full bef aft g st' :
  matches dump_pattern (MState bef aft g) st' ->
  exists w d rest,
    aft = w ++ str ".dump(" ++ d ++ str ")" ++ rest /\
    (w <> [] /\ forallb is_word w = true) /\ decimal_literal d.
Proof.
  intros H. expose_pattern dump_pattern H. invert_matches.
  eexists _, _, _. split; [reflexivity|]. unfold decimal_literal. auto.
Qed.

(** Whether the pattern of rule 4 matches at a position does not depend
    on what stands before the position. *)
Lemma dump_pattern_matches_intro bef g w d rest :
  w <> [] -> forallb is_word w = true -> decimal_literal d ->
  exists st,
    matches dump_pattern (MState bef (w ++ str ".dump(" ++ d ++ str ")" ++ rest) g) st.
Proof.
  intros Hw Hww [Hd Hdd]. unfold dump_pattern, cat. cbn [fold_right].
  eexists. eapply M_Seq.
  { apply M_Group. apply (M_Plus Word w); assumption. }
  cbn [before after groups]. eapply M_Seq; [apply matches_lits_intro|].
  eapply M_Seq.
  { apply M_Group. apply (M_Plus Digit d); assumption. }
  cbn [before after groups]. eapply M_Seq; [apply (M_Lit (ch ")"))|apply M_Eps].
Qed.

Lemma dump_pattern_any_context bef g bef' g' aft st :
  matches dump_pattern (MState bef aft g) st ->
  exists st', matches dump_pattern (MState bef' aft g') st'.
Proof.
  intros H. apply dump_pattern_shape_full in H as (w & d & rest & -> & [Hw Hww] & Hd).
  apply dump_pattern_matches_intro; assumption.
Qed.

(** The pattern of rule 4 matches nowhere in a text exactly when the text
    holds no call of [dump] on an identifier with a decimal argument. *)
Lemma dump_search_none_iff s :
  search dump_pattern [] s = None <-> ~ holds_decimal_dump s.
Proof.
  split.
  - intros Hnone (p & w & d & r & [Hw Hww] & Hd & ->).
    destruct (dump_pattern_matches_intro (rev p ++ []) [] w d r Hw Hww Hd) as [st Hm].
    refine (search_none_elim _ _ _ Hnone p _ st _ Hm).
    unfold dump_call. rewrite <- !app_assoc. reflexivity.
  - intros Hno. apply search_none_intro. intros p q st -> Hm.
    apply dump_pattern_shape_full in Hm as (w & d & rest & -> & Hw & Hd).
    apply Hno. exists p, w, d, rest. split; [exact Hw|]. split; [exact Hd|].
    unfold dump_call. rewrite <- !app_assoc. reflexivity.
Qed.

(** The scan of [re.sub] up to the first match: what stands before it is
    copied, and the expanded template follows. *)
Lemma sub_loop_first_match r t : forall aft bef st0,
  search r bef aft = Some st0 ->
  exists pre q st out,
    aft = pre ++ q /\
    match_at r (rev pre ++ bef) q false = Some st /\
    sub_loop r t bef aft 0 = pre ++ expand t (groups st) ++ out.
Proof.
  induction aft as [|c aft IH]; intros bef st0 H; simpl in H.
  - destruct (match_at r bef [] false) as [st|] eqn:Hm; [|discriminate].
    exists [], [], st, []. simpl. rewrite Hm, app_nil_r. auto.
  - destruct (match_at r bef (c :: aft) false) as [st|] eqn:Hm.
    + exists [], (c :: aft), st. cbn [sub_loop rev app]. rewrite Hm.
      destruct (match_len (c :: aft) st);
        eexists; (split; [reflexivity|split; [reflexivity|reflexivity]]).
    + destruct (IH _ _ H) as (pre & q & st & out & -> & Hq & Hs).
      exists (c :: pre), q, st, out. simpl. rewrite <- app_assoc. simpl.
      rewrite Hm, Hs. auto.
Qed.

(** A word and [.dump(] never read as the start of the replacement of
    rule 4: the replacement has a colon where the word ends. *)
Lemma dump_call_not_serialize w x y :
  forallb is_word w = true ->
  w ++ str ".dump(" ++ x <> str "boost::json::serialize(" ++ y.
Proof.
  intros Hw E.
  destruct w as [|c1 [|c2 [|c3 [|c4 [|c5 [|c6 w]]]]]]; try discriminate E.
  injection E as _ _ _ _ _ E _. subst c6. simpl in Hw.
  rewrite !andb_false_r in Hw. discriminate.
Qed.

(** Rule 4 changes every text in which its pattern matches. *)
Lemma rule4_changes_at_match s :
  rule4 s = s -> search dump_pattern [] s = None.
Proof.
  intros Heq. destruct (search dump_pattern [] s) as [st0|] eqn:E; [|reflexivity].
  exfalso.
  destruct (sub_loop_first_match _ dump_template _ _ _ E)
    as (pre & q & st & out & -> & Hm & Hout).
  unfold rule4, re_sub in Heq. rewrite Hout in Heq. apply app_inv_head in Heq.
  apply match_at_sound, dump_pattern_shape_full in Hm
    as (w & d & rest & -> & [_ Hww] & _).
  unfold dump_template, expand in Heq. rewrite flat_map_app in Heq.
  change (flat_map _ (tlits (str "boost::json::serialize(")))
    with (str "boost::json::serialize(") in Heq.
  rewrite <- app_assoc in Heq. symmetry in Heq.
  exact (dump_call_not_serialize _ _ _ Hww Heq).
Qed.

(** In a call of [dump], a match of the pattern starts at the variable
    of the call or inside the argument and its closing parenthesis. *)
Lemma dump_no_match_outside v a :
  identifier v ->
  ~ starts_decimal_call (a ++ str ")") ->
  ~ holds_decimal_dump (a ++ str ")") ->
  search dump_pattern [] (dump_call v a) = None.
Proof.
  intros [_ Hv] Hstart Hinner. apply dump_search_none_iff in Hinner.
  apply search_none_intro. intros p q st E Hm.
  assert (Hin_a : forall l, a ++ str ")" = l ++ q -> False).
  { intros l El.
    destruct (dump_pattern_any_context _ _ (rev l ++ []) [] _ _ Hm) as [st' Hm'].
    exact (search_none_elim _ _ _ Hinner l q st' El Hm'). }
  unfold dump_call in E.
  assert (E1 : (v ++ str ".dump(") ++ (a ++ str ")") = p ++ q)
    by (rewrite <- app_assoc; exact E).
  apply app_eq_app in E1 as [l [[E1 E2]|[_ E2]]]; [|exact (Hin_a l E2)].
  symmetry in E2.
  destruct (decide (l = [])) as [->|Hl]; [exact (Hin_a [] E2)|].
  destruct (exists_last Hl) as (t & c & ->).
  assert (E3 : (v ++ str ".dump") ++ [ch "("] = (p ++ t) ++ [c])
    by (rewrite <- !app_assoc; exact E1).
  apply app_inj_tail in E3 as [E3 <-].
  apply dump_pattern_shape_full in Hm as (w & d & rest & Eq & [_ Hww] & Hd).
  assert (E4 : t ++ ch "(" :: (a ++ str ")") =
               (w ++ str ".dump") ++ ch "(" :: (d ++ str ")" ++ rest)).
  { rewrite <- !app_assoc. rewrite <- E2, <- app_assoc in Eq. exact Eq. }
  apply split_first_both in E4 as [_ E4].
  - apply Hstart. exists d, rest. split; [exact Hd|exact E4].
  - intros Hin. apply (word_run_lacks_paren v (str ".dump") Hv).
    + no_paren_in_literal.
    + rewrite E3. apply in_or_app. right. exact Hin.
  - apply word_run_lacks_paren; [exact Hww|no_paren_in_literal].
Qed.

(** And every such match is one. *)
Lemma dump_match_inside v a :
  identifier v ->
  search dump_pattern [] (dump_call v a) = None ->
  ~ starts_decimal_call (a ++ str ")") /\ ~ holds_decimal_dump (a ++ str ")").
Proof.
  intros Hv Hnone. apply dump_search_none_iff in Hnone. split.
  - intros (d & r & Hd & E). apply Hnone. exists [], v, d, r.
    split; [exact Hv|]. split; [exact Hd|].
    unfold dump_call. cbn [app]. rewrite <- !app_assoc, E. reflexivity.
  - intros (p & w & d & r & Hw & Hd & E). apply Hnone.
    exists (v ++ str ".dump(" ++ p), w, d, r.
    split; [exact Hw|]. split; [exact Hd|].
    unfold dump_call in *. rewrite <- !app_assoc, E, <- !app_assoc. reflexivity.
Qed.

Lemma not_starts_decimal_call (s : text) :
  match s with
  | c :: _ => is_digit c = false
  | [] => True
  end ->
  ~ starts_decimal_call s.
Proof.
  intros Hs (d & r & [Hd Hdd] & ->). destruct d as [|c d]; [congruence|].
  simpl in *. apply andb_prop in Hdd as [Hc _]. congruence.
Qed.

(** The nested call of the counterexample: the inner call is rewritten. *)
Lemma rule4_nested_call :
  rule4 (dump_call (str "v") (str "w.dump(4)")) =
  dump_call (str "v") (str "boost::json::serialize(w)").
Proof. vm_compute. reflexivity. Qed.

(** C9, as amended.  Rule 4 rewrites a call of [dump] only when its
    argument is a decimal integer literal.  For every identifier [v] and
    every argument [a] that, with the closing parenthesis of the call,
    does not start with a decimal integer literal and a closing parenthesis
    (so [a] is no such literal itself) and holds no call of [dump] with a
    decimal argument of its own, the pattern matches nowhere in [v.dump(a)]
    and the rule returns the call as it is.  These are the only such
    arguments: a call that the rule returns as it is has an argument of
    this kind.  The call without an argument and the calls with the
    arguments [indent] and [get_indent()] are three of them. *)
Theorem rule4_needs_decimal_argument v :
  identifier v ->
  (forall a, ~ starts_decimal_call (a ++ str ")") ->
             ~ holds_decimal_dump (a ++ str ")") ->
             search dump_pattern [] (dump_call v a) = None /\
             rule4 (dump_call v a) = dump_call v a) /\
  (forall a, rule4 (dump_call v a) = dump_call v a ->
             ~ starts_decimal_call (a ++ str ")") /\
             ~ holds_decimal_dump (a ++ str ")")) /\
  rule4 (dump_call v []) = dump_call v [] /\
  rule4 (dump_call v (str "indent")) = dump_call v (str "indent") /\
  rule4 (dump_call v (str "get_indent()")) = dump_call v (str "get_indent()").
Proof.
  intros Hv.
  assert (G : forall a, ~ starts_decimal_call (a ++ str ")") ->
                        ~ holds_decimal_dump (a ++ str ")") ->
                        search dump_pattern [] (dump_call v a) = None /\
                        rule4 (dump_call v a) = dump_call v a).
  { intros a Hs Hi. pose proof (dump_no_match_outside v a Hv Hs Hi) as Hn.
    split; [exact Hn|apply re_sub_no_match, Hn]. }
  split; [exact G|]. split.
  { intros a Heq. apply (dump_match_inside v a Hv), rule4_changes_at_match, Heq. }
  repeat split; apply G;
    try (apply not_starts_decimal_call; reflexivity);
    apply dump_search_none_iff; vm_compute; reflexivity.
Qed.

End Scripts.

(** ** The statements at concrete inputs *)

(** A run of Script A over two files under [src]: the first holds a call
    that rule 2 rewrites, the second nothing that any rule matches.  One
    file is written, and two lines are printed. *)
Example main_run_example :
  let w := World (<[str "src/a.cpp" := str "auto a = json::array();"]>
                    (<[str "src/b.cpp" := str "int x;"]> ∅)) [] in
  (fun r => trace (snd r)) <$>
    main no_entries_db every_path_writable no_links
         (glob_of [str "src/a.cpp"; str "src/b.cpp"]) w =
  Some [EvWrite (str "src/a.cpp") (str "auto a = boost::json::array();");
        EvPrint (str "Fixed: src/a.cpp");
        EvPrint (str "Fixed 1 files")].
Proof. vm_compute. reflexivity. Qed.

(** The same run when [src/a.cpp] cannot be opened for writing: the
    exception of line 41 ends it. *)
Example main_read_only_example :
  let w := World (<[str "src/a.cpp" := str "auto a = json::array();"]>
                    (<[str "src/b.cpp" := str "int x;"]> ∅)) [] in
  main no_entries_db (fun p => negb (bool_decide (p = str "src/a.cpp"))) no_links
       (glob_of [str "src/a.cpp"; str "src/b.cpp"]) w = None.
Proof. vm_compute. reflexivity. Qed.

(** A run of Script A over two paths that name one file: the file is
    read, transformed and written once for each path. *)
Example main_linked_example :
  let w := World (<[str "src/a.cpp" := str "json::array()"]>
                    (<[str "src/l.cpp" := str "json::array()"]> ∅)) [] in
  main no_entries_db every_path_writable (linked (str "src/a.cpp") (str "src/l.cpp"))
       (glob_of [str "src/a.cpp"; str "src/l.cpp"]) w =
  Some (tt,
        World (<[str "src/a.cpp" := str "boost::boost::json::array()"]>
                 (<[str "src/l.cpp" := str "boost::boost::json::array()"]> ∅))
              [EvWrite (str "src/a.cpp") (str "boost::json::array()");
               EvPrint (str "Fixed: src/a.cpp");
               EvWrite (str "src/l.cpp") (str "boost::boost::json::array()");
               EvPrint (str "Fixed: src/l.cpp");
               EvPrint (str "Fixed 2 files")]).
Proof. vm_compute. reflexivity. Qed.

(** A run of Script B on a file with one guarded check. *)
Example fix_config_run_example :
  let w := World (<[config_path :=
                      guarded_call (str "cfg") (str "cfg") (str "seed")]> ∅) [] in
  (fun r => trace (snd r)) <$> fix_config no_entries_db every_path_writable no_links w =
  Some [EvWrite config_path (contains_call (str "cfg") (str "seed"));
        EvPrint (str "Fixed config.cpp")].
Proof. vm_compute. reflexivity. Qed.

Lemma identifier_v : identifier no_entries_db (str "v").
Proof. split; [discriminate|reflexivity]. Defined.

Lemma lacks_dq_k : lacks dq (str "k").
Proof. not_in_literal. Defined.

Lemma glob_of_readable found fs pat p :
  In p (glob_of found fs pat) -> is_Some (fs !! p).
Proof.
  unfold glob_of. case_bool_decide; [|intros []].
  intros Hin. apply filter_In in Hin as [_ Hp].
  apply bool_decide_eq_true in Hp. exact Hp.
Defined.

Lemma no_links_equivalence : links_equivalence no_links.
Proof.
  unfold links_equivalence, no_links. repeat split.
  - intros p. apply bool_decide_eq_true_2. reflexivity.
  - intros p q. repeat case_bool_decide; congruence.
  - intros p q r Hpq Hqr. apply bool_decide_eq_true in Hpq, Hqr.
    apply bool_decide_eq_true_2. congruence.
Defined.

Lemma no_links_agree fs : links_agree no_links fs.
Proof.
  intros p q H. apply bool_decide_eq_true in H. rewrite H. reflexivity.
Defined.

Lemma linked_equivalence a b : links_equivalence (linked a b).
Proof.
  unfold links_equivalence, linked. repeat split.
  - intros p. rewrite bool_decide_eq_true_2; reflexivity.
  - intros p q. repeat case_bool_decide; subst; simpl; congruence.
  - intros p q r. repeat case_bool_decide; subst; simpl; congruence.
Defined.

Lemma rule5_guards_containment_witness :
  rule5 no_entries_db (contains_call (str "v") (str "k")) =
  guarded_call (str "v") (str "v") (str "k").
Proof.
  apply (rule5_guards_containment no_entries_db (str "v") (str "k")).
  - exact identifier_v.
  - discriminate.
  - exact lacks_dq_k.
Defined.

(** C5 as stated fails at the empty key: whatever the database, rule 5
    does not make the guarded conjunction of the containment call on [v]
    and the empty key. *)
Lemma rule5_empty_key_not_guarded :
  ~ (exists db,
       identifier db (str "v") -> lacks dq [] ->
       rule5 db (contains_call (str "v") []) =
       guarded_call (str "v") (str "v") []).
Proof.
  intros [db H].
  assert (Hv : identifier db (str "v")) by (split; [discriminate|reflexivity]).
  specialize (H Hv (fun Hin => Hin)).
  rewrite rule5_empty_key in H. vm_compute in H. discriminate.
Qed.

Lemma config_sub_inverts_rule5_witness :
  config_sub no_entries_db (rule5 no_entries_db (contains_call (str "v") (str "k"))) =
  contains_call (str "v") (str "k") /\
  (str "k" <> [] ->
   rule5 no_entries_db (contains_call (str "v") (str "k")) =
   guarded_call (str "v") (str "v") (str "k") /\
   config_sub no_entries_db (guarded_call (str "v") (str "v") (str "k")) =
   contains_call (str "v") (str "k")).
Proof.
  apply (config_sub_inverts_rule5 no_entries_db (str "v") (str "k")).
  - exact identifier_v.
  - exact lacks_dq_k.
Defined.

Lemma rule4_serializes_dump_witness :
  rule4 no_entries_db (dump_call (str "v") (str "2")) = serialize_call (str "v").
Proof.
  apply (rule4_serializes_dump no_entries_db (str "v") (str "2")).
  - exact identifier_v.
  - split; [discriminate|reflexivity].
Defined.

Lemma rule4_needs_decimal_argument_witness :
  (forall a, ~ starts_decimal_call no_entries_db (a ++ str ")") ->
             ~ holds_decimal_dump no_entries_db (a ++ str ")") ->
             search no_entries_db dump_pattern [] (dump_call (str "v") a) = None /\
             rule4 no_entries_db (dump_call (str "v") a) = dump_call (str "v") a) /\
  (forall a, rule4 no_entries_db (dump_call (str "v") a) = dump_call (str "v") a ->
             ~ starts_decimal_call no_entries_db (a ++ str ")") /\
             ~ holds_decimal_dump no_entries_db (a ++ str ")")) /\
  rule4 no_entries_db (dump_call (str "v") []) = dump_call (str "v") [] /\
  rule4 no_entries_db (dump_call (str "v") (str "indent")) =
  dump_call (str "v") (str "indent") /\
  rule4 no_entries_db (dump_call (str "v") (str "get_indent()")) =
  dump_call (str "v") (str "get_indent()").
Proof.
  apply (rule4_needs_decimal_argument no_entries_db (str "v")).
  exact identifier_v.
Defined.

(** C9 as stated fails at the argument [w.dump(4)], which is not a
    decimal integer literal: whatever the database, rule 4 does not leave
    [v.dump(w.dump(4))] unchanged, it rewrites the call inside. *)
Lemma rule4_nested_call_rewritten :
  ~ (exists db,
       identifier db (str "v") -> ~ decimal_literal db (str "w.dump(4)") ->
       rule4 db (dump_call (str "v") (str "w.dump(4)")) =
       dump_call (str "v") (str "w.dump(4)")).
Proof.
  intros [db H].
  assert (Hv : identifier db (str "v")) by (split; [discriminate|reflexivity]).
  assert (Hn : ~ decimal_literal db (str "w.dump(4)"))
    by (intros [_ Hd]; vm_compute in Hd; discriminate).
  specialize (H Hv Hn). rewrite rule4_nested_call in H.
  vm_compute in H. discriminate.
Qed.

Lemma unmatched_file_left_alone_witness :
  let w := World (<[str "src/b.cpp" := str "int x;"]> ∅) [] in
  fix_boost_json_file no_entries_db every_path_writable no_links (str "src/b.cpp") w =
  Some (false, w).
Proof.
  apply (unmatched_file_left_alone no_entries_db every_path_writable no_links
           (World (<[str "src/b.cpp" := str "int x;"]> ∅) [])
           (str "src/b.cpp") (str "int x;")).
  - apply lookup_insert_eq.
  - repeat constructor; vm_compute; reflexivity.
Defined.

Lemma fix_config_always_writes_witness :
  let w := World (<[config_path := str "int x;"]> ∅) [] in
  fix_config no_entries_db every_path_writable no_links w =
    Some (tt, World (write_to no_links config_path
                       (config_sub no_entries_db (str "int x;")) (files w))
                    (trace w ++ [EvWrite config_path (config_sub no_entries_db (str "int x;"));
                                 EvPrint (str "Fixed config.cpp")])) /\
  write_to no_links config_path (config_sub no_entries_db (str "int x;")) (files w)
    !! config_path = Some (config_sub no_entries_db (str "int x;")) /\
  (search no_entries_db config_pattern [] (str "int x;") = None ->
   config_sub no_entries_db (str "int x;") = str "int x;").
Proof.
  apply (fix_config_always_writes no_entries_db every_path_writable no_links
           (World (<[config_path := str "int x;"]> ∅) []) (str "int x;")).
  - apply lookup_insert_eq.
  - reflexivity.
Defined.

Lemma main_output_witness :
  let glob := glob_of [str "src/a.cpp"; str "src/b.cpp"] in
  let w := World (<[str "src/a.cpp" := str "auto a = json::array();"]>
                    (<[str "src/b.cpp" := str "int x;"]> ∅)) [] in
  let w' := World (<[str "src/a.cpp" := str "auto a = boost::json::array();"]>
                     (<[str "src/b.cpp" := str "int x;"]> ∅))
                  [EvWrite (str "src/a.cpp") (str "auto a = boost::json::array();");
                   EvPrint (str "Fixed: src/a.cpp");
                   EvPrint (str "Fixed 1 files")] in
  let cpp_files := flat_map (glob (files w)) glob_patterns in
  exists results w1 evs digits,
    fix_results no_entries_db every_path_writable no_links cpp_files w =
      Some (results, w1) /\
    w' = World (files w1) (trace w ++ evs) /\
    prints evs =
      List.map fixed_line (fixed_files cpp_files results) ++
      [str "Fixed " ++ digits ++ str " files"] /\
    decimal_of (count_occ Bool.bool_dec results true) digits /\
    writes evs = fixed_files cpp_files results /\
    length (writes evs) = count_occ Bool.bool_dec results true.
Proof.
  apply (main_output no_entries_db every_path_writable no_links
           (glob_of [str "src/a.cpp"; str "src/b.cpp"])
           (World (<[str "src/a.cpp" := str "auto a = json::array();"]>
                     (<[str "src/b.cpp" := str "int x;"]> ∅)) []) tt).
  vm_compute. reflexivity.
Defined.

(** ** The further statements at concrete inputs *)

Lemma no_entries_word_not_space c :
  is_word no_entries_db c = true -> is_space no_entries_db c = false.
Proof.
  unfold is_word, is_space, between. destruct (c <? 128); [|discriminate].
  repeat match goal with
         | |- context [?a <=? ?b] => destruct (N.leb_spec a b)
         | |- context [?a =? ?b] => destruct (N.eqb_spec a b)
         end; simpl; intros Hword; try reflexivity; try discriminate; lia.
Defined.

Lemma int_x_trigger_free : trigger_free (str "int x;").
Proof.
  repeat split; intros H; apply occurs_head in H; revert H; not_in_literal.
Defined.

Lemma trigger_free_file_left_alone_witness :
  let w := World (<[str "src/b.cpp" := str "int x;"]> ∅) [] in
  fix_boost_json_file no_entries_db every_path_writable no_links (str "src/b.cpp") w =
  Some (false, w).
Proof.
  apply (trigger_free_file_left_alone no_entries_db every_path_writable no_links
           (World (<[str "src/b.cpp" := str "int x;"]> ∅) [])
           (str "src/b.cpp") (str "int x;")).
  - apply lookup_insert_eq.
  - exact int_x_trigger_free.
Defined.

Lemma main_files_after_witness :
  let same_file := linked (str "src/a.cpp") (str "src/l.cpp") in
  let glob := glob_of [str "src/a.cpp"; str "src/l.cpp"] in
  let w := World (<[str "src/a.cpp" := str "json::array()"]>
                    (<[str "src/l.cpp" := str "json::array()"]> ∅)) [] in
  let w' := World (<[str "src/a.cpp" := str "boost::boost::json::array()"]>
                     (<[str "src/l.cpp" := str "boost::boost::json::array()"]> ∅))
                  [EvWrite (str "src/a.cpp") (str "boost::json::array()");
                   EvPrint (str "Fixed: src/a.cpp");
                   EvWrite (str "src/l.cpp") (str "boost::boost::json::array()");
                   EvPrint (str "Fixed: src/l.cpp");
                   EvPrint (str "Fixed 2 files")] in
  files w' !! str "src/a.cpp" =
  Nat.iter (times_named same_file (str "src/a.cpp")
              (flat_map (glob (files w)) glob_patterns))
           (fix_content no_entries_db)
    <$> files w !! str "src/a.cpp".
Proof.
  apply (main_files_after no_entries_db every_path_writable
           (linked (str "src/a.cpp") (str "src/l.cpp"))
           (glob_of [str "src/a.cpp"; str "src/l.cpp"])
           (World (<[str "src/a.cpp" := str "json::array()"]>
                     (<[str "src/l.cpp" := str "json::array()"]> ∅)) []) tt).
  - apply linked_equivalence.
  - intros p q H. unfold linked in H.
    repeat case_bool_decide; subst; try reflexivity; discriminate.
  - vm_compute. reflexivity.
Defined.

Lemma main_on_fixed_points_witness :
  let w := World (<[str "src/b.cpp" := str "int x;"]> ∅) [] in
  main no_entries_db every_path_writable no_links (glob_of [str "src/b.cpp"]) w =
  Some (tt, World (files w) (trace w ++ [EvPrint (str "Fixed 0 files")])).
Proof.
  apply (main_on_fixed_points no_entries_db every_path_writable no_links
           (glob_of [str "src/b.cpp"])
           (World (<[str "src/b.cpp" := str "int x;"]> ∅) [])).
  intros pat p Hin. exists (str "int x;"). split; [|vm_compute; reflexivity].
  unfold glob_of in Hin. case_bool_decide; [|destruct Hin].
  apply filter_In in Hin as [[<-|[]] _]. apply lookup_insert_eq.
Defined.

Lemma fix_config_without_guard_witness :
  let w := World (<[config_path := str "int x;"]> ∅) [] in
  fix_config no_entries_db every_path_writable no_links w =
  Some (tt, World (files w)
                  (trace w ++ [EvWrite config_path (str "int x;");
                               EvPrint (str "Fixed config.cpp")])).
Proof.
  apply (fix_config_without_guard no_entries_db every_path_writable no_links
           (World (<[config_path := str "int x;"]> ∅) []) (str "int x;")).
  - apply lookup_insert_eq.
  - reflexivity.
  - intros q old Hq. apply bool_decide_eq_true in Hq. subst q.
    simpl. rewrite lookup_insert_eq. congruence.
  - intros H. apply occurs_head in H. revert H. not_in_literal.
Defined.

Lemma rule1_rewrites_declaration_witness :
  rule1 no_entries_db
    (str "    " ++
     (str "json" ++ str "  " ++ str "foo" ++ str ";" ++ str " " ++ [nl] ++ str "    " ++
      str "foo" ++ str "[" ++ [dq]) ++ (str "bar" ++ [dq] ++ str "] = 1;")) =
  str "    " ++
  (str "boost::json::object " ++ str "foo" ++ str ";" ++ [nl] ++ str "    " ++
   str "foo" ++ str "[" ++ [dq]) ++ (str "bar" ++ [dq] ++ str "] = 1;").
Proof.
  apply (rule1_rewrites_declaration no_entries_db (str "    ") (str "foo")
           (str "  ") (str " ") (str "    ") (str "bar" ++ [dq] ++ str "] = 1;")).
  - exact no_entries_word_not_space.
  - not_in_literal.
  - reflexivity.
  - split; [discriminate|reflexivity].
  - discriminate.
  - reflexivity.
  - reflexivity.
  - reflexivity.
  - not_in_literal.
  - intros H. apply occurs_head in H. revert H. not_in_literal.
Defined.

Lemma identifier_xa : identifier no_entries_db (str "xa").
Proof. split; [discriminate|reflexivity]. Defined.

Lemma identifier_a : identifier no_entries_db (str "a").
Proof. split; [discriminate|reflexivity]. Defined.

Lemma config_sub_on_two_variables_witness :
  (suffix (str "a") (str "xa") ->
   config_sub no_entries_db (guarded_call (str "xa") (str "a") (str "k")) =
   contains_call (str "xa") (str "k")) /\
  (~ suffix (str "a") (str "xa") ->
   config_sub no_entries_db (guarded_call (str "xa") (str "a") (str "k")) =
   guarded_call (str "xa") (str "a") (str "k")).
Proof.
  apply (config_sub_on_two_variables no_entries_db (str "xa") (str "a") (str "k")).
  - exact identifier_xa.
  - exact identifier_a.
  - discriminate.
  - exact lacks_dq_k.
Defined.

Lemma rule4_twice_on_dump_witness :
  rule4 no_entries_db (rule4 no_entries_db (dump_call (str "v") (str "2"))) =
  rule4 no_entries_db (dump_call (str "v") (str "2")).
Proof.
  apply (rule4_twice_on_dump no_entries_db (str "v") (str "2")).
  - exact identifier_v.
  - split; [discriminate|reflexivity].
Defined.

Lemma rule5_twice_on_call_witness :
  rule5 no_entries_db (rule5 no_entries_db (contains_call (str "v") (str "k"))) =
  rule5 no_entries_db (contains_call (str "v") (str "k")).
Proof.
  apply (rule5_twice_on_call no_entries_db (str "v") (str "k")).
  - exact identifier_v.
  - exact lacks_dq_k.
Defined.
